(** * A shallow embedding of the Picosystem platform game (main.py)

    Numbers.  The Python code mixes ints and floats (GRAVITY is 0.5); every
    quantity that takes part in the physics is embedded as an exact rational
    [Q], the integer counters (score, tick counter) as [Z].  Rounding is not
    modelled: nothing is stated here that would depend on the exact value of
    a sum of numbers that are not multiples of a power of two (an enemy's
    speed of 0.1, say).  The only transcendental operation, [math.sin],
    belongs to the Python library and not to the game: it is a parameter
    [sin : Q -> Q] of everything that animates a collectible.

    Input.  [picosystem.button] and [picosystem.pressed] are polled from the
    device; one tick's answers are gathered in the record [Input].

    Objects.  Each class becomes a module with a record [t] and the methods
    as functions that return the updated object.  [Game.star] is a second
    reference to the last object of [Game.collectibles]; it is embedded as
    the position of that object in the list, so that a write through either
    name is seen through the other. *)

From Stdlib Require Import QArith Qround ZArith List Bool Lia Lqa.
From Stdlib Require String DecimalString.
Import ListNotations.
Import String.StringSyntax.
Delimit Scope string_scope with string.
Open Scope Q_scope.

(** ** Comparisons on numbers, as booleans *)

Definition Qlt_bool (a b : Q) : bool :=
  (Qnum a * QDen b <? Qnum b * QDen a)%Z.

Definition Qgt_bool (a b : Q) : bool := Qlt_bool b a.

(** ** Game constants *)

Definition SCREEN_WIDTH : Q := 120.
Definition SCREEN_HEIGHT : Q := 120.
Definition GRAVITY : Q := 1 # 2.
Definition JUMP_STRENGTH : Q := - 8.
Definition PLAYER_SPEED : Q := 2.

Definition Color : Type := (Z * Z * Z)%type.

Definition BLACK : Color := (0, 0, 0)%Z.
Definition WHITE : Color := (15, 15, 15)%Z.
Definition RED : Color := (15, 0, 0)%Z.
Definition GREEN : Color := (0, 15, 0)%Z.
Definition BLUE : Color := (0, 0, 15)%Z.
Definition YELLOW : Color := (15, 15, 0)%Z.
Definition GRAY : Color := (8, 8, 8)%Z.
Definition BROWN : Color := (8, 4, 0)%Z.

(** A rectangle is the tuple (x, y, w, h) the code passes around. *)
Definition Rect : Type := (Q * Q * Q * Q)%type.

(** One tick of device input: [button(LEFT)], [button(RIGHT)],
    [pressed(A)] and [pressed(X)]. *)
Record Input : Type := mkInput {
  button_LEFT : bool;
  button_RIGHT : bool;
  pressed_A : bool;
  pressed_X : bool
}.

Definition no_input : Input := mkInput false false false false.
Definition hold_left : Input := mkInput true false false false.
Definition hold_right : Input := mkInput false true false false.
Definition press_A : Input := mkInput false false true false.
Definition press_X : Input := mkInput false false false true.

(** ** The display

    Drawing goes through the device: [picosystem.pen], [clear], [frect],
    [pixel] and [text].  A draw method is embedded as the list of the calls
    it makes, in order. *)
Inductive Call : Type :=
| pen (c : Color)
| clear
| frect (x y w h : Q)
| pixel (x y : Q)
| text (s : String.string) (x y : Q).

(** Python's [int()] on a number: truncation towards zero. *)
Definition int (q : Q) : Z := Z.quot (Qnum q) (Zpos (Qden q)).

(** Python's [a // b] on numbers: the floor of the quotient. *)
Definition floor_div (a b : Q) : Q := inject_Z (Qfloor (a / b)).

(** [str()] of an integer, as an f-string prints it. *)
Definition str (z : Z) : String.string :=
  DecimalString.NilZero.string_of_int (Z.to_int z).

(** ** class Enemy *)

Module Enemy.

Record t : Type := mk {
  start_x : Q;
  x : Q;
  y : Q;
  width : Q;
  height : Q;
  move_range : Q;
  speed : Q;
  direction : Q
}.

Definition init (x0 y0 range0 speed0 : Q) : t :=
  mk x0 x0 y0 8 8 range0 speed0 1.

Definition with_direction (d : Q) (self : t) : t :=
  mk (start_x self) (x self) (y self) (width self) (height self)
     (move_range self) (speed self) d.

Definition update (self : t) : t :=
  let self :=
    mk (start_x self) (x self + speed self * direction self) (y self)
       (width self) (height self) (move_range self) (speed self)
       (direction self) in
  if Qle_bool (x self) (start_x self) then with_direction 1 self
  else if Qle_bool (start_x self + move_range self) (x self)
       then with_direction (- 1) self
       else self.

Definition get_rect (self : t) : Rect :=
  (x self, y self, width self, height self).

Definition draw (self : t) : list Call :=
  [ pen RED;
    frect (inject_Z (int (x self))) (inject_Z (int (y self)))
          (width self) (height self);
    pen WHITE;
    pixel (inject_Z (int (x self + 2))) (inject_Z (int (y self + 2)));
    pixel (inject_Z (int (x self + 5))) (inject_Z (int (y self + 2))) ].

End Enemy.

(** ** class Platform *)

Module Platform.

Record t : Type := mk {
  x : Q;
  y : Q;
  width : Q;
  height : Q;
  color : Color
}.

Definition get_rect (self : t) : Rect :=
  (x self, y self, width self, height self).

Definition draw (self : t) : list Call :=
  [ pen (color self);
    frect (x self) (y self) (width self) (height self) ].

End Platform.

(** ** class Player *)

Module Player.

Record t : Type := mk {
  x : Q;
  y : Q;
  width : Q;
  height : Q;
  vel_x : Q;
  vel_y : Q;
  on_ground : bool;
  start_x : Q;
  start_y : Q
}.

Definition init (x0 y0 : Q) : t :=
  mk x0 y0 8 8 0 0 false x0 y0.

Definition with_x (v : Q) (self : t) : t :=
  mk v (y self) (width self) (height self) (vel_x self) (vel_y self)
     (on_ground self) (start_x self) (start_y self).

Definition with_y (v : Q) (self : t) : t :=
  mk (x self) v (width self) (height self) (vel_x self) (vel_y self)
     (on_ground self) (start_x self) (start_y self).

Definition with_vel_x (v : Q) (self : t) : t :=
  mk (x self) (y self) (width self) (height self) v (vel_y self)
     (on_ground self) (start_x self) (start_y self).

Definition with_vel_y (v : Q) (self : t) : t :=
  mk (x self) (y self) (width self) (height self) (vel_x self) v
     (on_ground self) (start_x self) (start_y self).

Definition with_on_ground (b : bool) (self : t) : t :=
  mk (x self) (y self) (width self) (height self) (vel_x self) (vel_y self)
     b (start_x self) (start_y self).

(** [rect_collision]: the conjunction of four strict comparisons. *)
Definition rect_collision (rect1 rect2 : Rect) : bool :=
  let '(x1, y1, w1, h1) := rect1 in
  let '(x2, y2, w2, h2) := rect2 in
  Qlt_bool x1 (x2 + w2) && Qgt_bool (x1 + w1) x2 &&
  Qlt_bool y1 (y2 + h2) && Qgt_bool (y1 + h1) y2.

(** The rectangle (self.x, self.y, self.width, self.height). *)
Definition rect (self : t) : Rect :=
  (x self, y self, width self, height self).

(** The body of the loop of [handle_collisions] for one platform.
    [player_rect] was computed before the loop and is not refreshed. *)
Definition collide (player_rect : Rect) (self : t) (platform : Platform.t) : t :=
  if rect_collision player_rect (Platform.get_rect platform) then
    if Qgt_bool (vel_y self) 0 then
      if Qlt_bool (y self) (Platform.y platform) then
        with_on_ground true
          (with_vel_y 0 (with_y (Platform.y platform - height self) self))
      else self
    else if Qlt_bool (vel_y self) 0 then
      if Qgt_bool (y self) (Platform.y platform) then
        with_vel_y 0
          (with_y (Platform.y platform + Platform.height platform) self)
      else self
    else self
  else self.

Definition handle_collisions (platforms : list Platform.t) (self : t) : t :=
  let player_rect := rect self in
  let self := with_on_ground false self in
  fold_left (collide player_rect) platforms self.

(** [update], statement by statement. *)

(** "Handle input": LEFT wins over RIGHT. *)
Definition handle_input (i : Input) (self : t) : t :=
  if button_LEFT i then with_vel_x (- PLAYER_SPEED) self
  else if button_RIGHT i then with_vel_x PLAYER_SPEED self
  else with_vel_x 0 self.

(** "Jump". *)
Definition jump (i : Input) (self : t) : t :=
  if pressed_A i && on_ground self
  then with_on_ground false (with_vel_y JUMP_STRENGTH self)
  else self.

(** "Apply gravity". *)
Definition apply_gravity (self : t) : t :=
  with_vel_y (vel_y self + GRAVITY) self.

(** "Update position". *)
Definition move (self : t) : t :=
  let self := with_x (x self + vel_x self) self in
  with_y (y self + vel_y self) self.

(** "Keep player on screen horizontally". *)
Definition keep_on_screen (self : t) : t :=
  if Qlt_bool (x self) 0 then with_x 0 self
  else if Qgt_bool (x self + width self) SCREEN_WIDTH
       then with_x (SCREEN_WIDTH - width self) self
       else self.

(** The player as it stands when [handle_collisions] is called. *)
Definition before_collisions (i : Input) (self : t) : t :=
  move (apply_gravity (jump i (handle_input i self))).

Definition update (i : Input) (platforms : list Platform.t) (self : t) : t :=
  keep_on_screen (handle_collisions platforms (before_collisions i self)).

Definition reset (self : t) : t :=
  mk (start_x self) (start_y self) (width self) (height self) 0 0 false
     (start_x self) (start_y self).

(** [update] called once per input of a list, on a fixed platform list. *)
Definition run (inputs : list Input) (platforms : list Platform.t) (self : t) : t :=
  fold_left (fun p i => update i platforms p) inputs self.

Definition draw (self : t) : list Call :=
  [ pen RED;
    frect (inject_Z (int (x self))) (inject_Z (int (y self)))
          (width self) (height self);
    pen WHITE;
    pixel (inject_Z (int (x self + 2))) (inject_Z (int (y self + 2)));
    pixel (inject_Z (int (x self + 5))) (inject_Z (int (y self + 2))) ].

End Player.

(** ** class Collectible *)

Module Collectible.

(** [is_star] is an attribute that only one object is given after its
    construction: [None] stands for the attribute being absent. *)
Record t : Type := mk {
  x : Q;
  y : Q;
  width : Q;
  height : Q;
  collected : bool;
  bob_offset : Q;
  tick_counter : Z;
  is_star : option bool
}.

Definition init (x0 y0 : Q) : t :=
  mk x0 y0 6 6 false 0 0%Z None.

Definition with_collected (b : bool) (self : t) : t :=
  mk (x self) (y self) (width self) (height self) b (bob_offset self)
     (tick_counter self) (is_star self).

Definition with_is_star (b : bool) (self : t) : t :=
  mk (x self) (y self) (width self) (height self) (collected self)
     (bob_offset self) (tick_counter self) (Some b).

Definition update (sin : Q -> Q) (self : t) : t :=
  let tick := (tick_counter self + 1)%Z in
  mk (x self) (y self) (width self) (height self) (collected self)
     (sin (inject_Z tick * (1 # 10)) * 2) tick (is_star self).

Definition get_rect (self : t) : Rect :=
  (x self, y self + bob_offset self, width self, height self).

(** [hasattr(self, "is_star") and self.is_star] *)
Definition star_shaped (self : t) : bool :=
  match is_star self with
  | Some b => b
  | None => false
  end.

Definition draw (self : t) : list Call :=
  if negb (collected self) then
    let y_pos := inject_Z (int (y self + bob_offset self)) in
    if star_shaped self then
      let cx := inject_Z (int (x self + floor_div (width self) 2)) in
      let cy := inject_Z (int (y_pos + floor_div (height self) 2)) in
      [ pen YELLOW;
        pixel cx cy;
        pixel cx (cy - 3);
        pixel (cx - 2) (cy + 2);
        pixel (cx + 2) (cy + 2);
        pixel (cx - 3) (cy - 1);
        pixel (cx + 3) (cy - 1);
        pixel (cx - 1) cy;
        pixel (cx + 1) cy;
        pixel cx (cy + 1) ]
    else
      [ pen YELLOW;
        frect (x self) y_pos (width self) (height self);
        pen WHITE;
        pixel (x self + 1) (y_pos + 1) ]
  else [].

End Collectible.

(** ** class Game *)

Module Game.

(** [star] is the position in [collectibles] of the object that
    [self.star] refers to. *)
Record t : Type := mk {
  player : Player.t;
  platforms : list Platform.t;
  collectibles : list Collectible.t;
  star : nat;
  score : Z;
  game_complete : bool
}.

Definition level_platforms : list Platform.t :=
  [ Platform.mk 0 110 40 10 GREEN;
    Platform.mk 60 110 60 10 GREEN;
    Platform.mk 30 90 20 8 WHITE;
    Platform.mk 70 80 25 8 WHITE;
    Platform.mk 15 70 20 8 WHITE;
    Platform.mk 80 60 30 8 WHITE;
    Platform.mk 10 50 25 8 WHITE;
    Platform.mk 50 40 30 8 WHITE;
    Platform.mk 90 30 25 8 WHITE;
    Platform.mk 40 20 40 8 GRAY ].

Definition level_collectibles : list Collectible.t :=
  [ Collectible.init 35 82;
    Collectible.init 78 72;
    Collectible.init 20 62;
    Collectible.init 88 52;
    Collectible.init 20 42;
    Collectible.init 65 32;
    Collectible.init 98 22 ].

(** The appends of [setup_level]; the star object is appended last and
    [self.star] names it. *)
Definition setup_level (self : t) : t :=
  let ps := platforms self ++ level_platforms in
  let cs := collectibles self ++ level_collectibles in
  let the_star := Collectible.with_is_star true (Collectible.init 55 12) in
  mk (player self) ps (cs ++ [the_star]) (length cs) (score self)
     (game_complete self).

Definition init : t :=
  setup_level (mk (Player.init 20 80) [] [] 0%nat 0%Z false).

(** The object [self.star], read through [collectibles]. *)
Definition star_object (self : t) : option Collectible.t :=
  nth_error (collectibles self) (star self).

(** [self.star.collected]; the reference always names an object of the
    list once [setup_level] has run. *)
Definition star_collected (self : t) : bool :=
  match star_object self with
  | Some c => Collectible.collected c
  | None => false
  end.

Definition restart_level (self : t) : t :=
  mk (Player.reset (player self)) (platforms self)
     (map (Collectible.with_collected false) (collectibles self))
     (star self) 0%Z false.

(** The body of the loop over the collectibles for one object:
    the object after the iteration and the score after it. *)
Definition visit (sin : Q -> Q) (p : Player.t) (c : Collectible.t) (sc : Z)
  : Collectible.t * Z :=
  let c := Collectible.update sin c in
  if negb (Collectible.collected c) then
    let player_rect := Player.rect p in
    if Player.rect_collision player_rect (Collectible.get_rect c)
    then (Collectible.with_collected true c, (sc + 10)%Z)
    else (c, sc)
  else (c, sc).

Fixpoint update_collectibles (sin : Q -> Q) (p : Player.t)
  (cs : list Collectible.t) (sc : Z) : list Collectible.t * Z :=
  match cs with
  | [] => ([], sc)
  | c :: rest =>
      let '(c', sc1) := visit sin p c sc in
      let '(rest', sc2) := update_collectibles sin p rest sc1 in
      (c' :: rest', sc2)
  end.

(** The state after "Update player" and "Update collectibles". *)
Definition advance (sin : Q -> Q) (i : Input) (self : t) : t :=
  let p := Player.update i (platforms self) (player self) in
  let '(cs, sc) := update_collectibles sin p (collectibles self) (score self) in
  mk p (platforms self) cs (star self) sc (game_complete self).

(** [self.player.y > SCREEN_HEIGHT + 20] *)
Definition fell_off (self : t) : bool :=
  Qgt_bool (Player.y (player self)) (SCREEN_HEIGHT + 20).

Definition with_game_complete (b : bool) (self : t) : t :=
  mk (player self) (platforms self) (collectibles self) (star self)
     (score self) b.

Definition update (sin : Q -> Q) (i : Input) (self : t) : t :=
  if pressed_X i then restart_level self
  else if game_complete self then self
  else
    let self := advance sin i self in
    let self := if fell_off self then restart_level self else self in
    if star_collected self then with_game_complete true self else self.

(** The module-level [update(tick)], called once per tick by the device,
    as a run over the inputs of successive ticks. *)
Definition run (sin : Q -> Q) (inputs : list Input) (self : t) : t :=
  fold_left (fun g i => update sin i g) inputs self.

(** Number of objects whose [collected] flag is set. *)
Definition collected_count (cs : list Collectible.t) : Z :=
  Z.of_nat (length (filter Collectible.collected cs)).

(** Number of positions whose flag is clear in [before] and set in [after]. *)
Fixpoint newly_collected (before after : list Collectible.t) : Z :=
  match before, after with
  | b :: bs, a :: az =>
      ((if negb (Collectible.collected b) && Collectible.collected a
        then 1 else 0) + newly_collected bs az)%Z
  | _, _ => 0%Z
  end.

(** A tick on which [restart_level] is called: X was pressed, or the
    game was running and the player ended below the screen. *)
Definition restart_tick (sin : Q -> Q) (i : Input) (self : t) : bool :=
  pressed_X i ||
  (negb (game_complete self) && fell_off (advance sin i self)).

(** [all(c.collected for c in self.collectibles)] *)
Definition all_collected (self : t) : bool :=
  forallb Collectible.collected (collectibles self).

Definition draw_ui (self : t) : list Call :=
  [ pen WHITE;
    text (String.append "Score: "%string (str (score self))) 2 2 ] ++
  (if game_complete self then
     [ pen BLACK;
       text "You found the star!"%string 10 60;
       text "Press X to restart"%string 10 70 ]
   else if all_collected self then
     [ pen BLACK;
       text "Level Complete!"%string 25 60;
       text "Press X to restart"%string 15 70 ]
   else []).

Definition draw (self : t) : list Call :=
  if game_complete self then
    [ pen BLUE; clear ] ++ draw_ui self
  else
    [ pen BLUE; clear ] ++
    flat_map Platform.draw (platforms self) ++
    flat_map Collectible.draw (collectibles self) ++
    Player.draw (player self) ++
    draw_ui self.

End Game.

(** ** What no method ever assigns *)

(** The attributes of a player that only [__init__] writes. *)
Definition player_shape (p : Player.t) : Q * Q * Q * Q :=
  (Player.width p, Player.height p, Player.start_x p, Player.start_y p).

(** The attributes of a collectible that only its construction writes. *)
Definition collectible_shape (c : Collectible.t) : Q * Q * Q * Q * option bool :=
  (Collectible.x c, Collectible.y c, Collectible.width c,
   Collectible.height c, Collectible.is_star c).

Definition shape_is_star (s : Q * Q * Q * Q * option bool) : bool :=
  match snd s with
  | Some b => b
  | None => false
  end.

(** The layout of a game: everything that [setup_level] fixes. *)
Definition layout (g : Game.t)
  : (Q * Q * Q * Q) * list Platform.t * list (Q * Q * Q * Q * option bool) * nat :=
  (player_shape (Game.player g), Game.platforms g,
   map collectible_shape (Game.collectibles g), Game.star g).

(** The object that one iteration of the collectible loop leaves behind;
    it does not depend on the score. *)
Definition visited (sin : Q -> Q) (p : Player.t) (c : Collectible.t) : Collectible.t :=
  fst (Game.visit sin p c 0%Z).

(** The horizontal velocity chosen by "Handle input". *)
Definition input_vel_x (i : Input) : Q :=
  if button_LEFT i then - PLAYER_SPEED
  else if button_RIGHT i then PLAYER_SPEED
  else 0.

(** A player that lands on [platform] (the first branch of the loop body). *)
Definition lands_on (p : Player.t) (platform : Platform.t) : bool :=
  Player.rect_collision (Player.rect p) (Platform.get_rect platform) &&
  Qlt_bool (Player.y p) (Platform.y platform).

(** The player after it has been put on top of a platform whose top is
    at height [top]. *)
Definition landed (top : Q) (p : Player.t) : Player.t :=
  Player.with_on_ground true
    (Player.with_vel_y 0 (Player.with_y (top - Player.height p) p)).

(** ** The functions the device calls *)

(** The module-level [update(tick)]: the game is updated, then [quit()] is
    called when tick > 1000.  The boolean tells whether it was. *)
Definition update (sin : Q -> Q) (tick : Z) (i : Input) (g : Game.t)
  : Game.t * bool :=
  (Game.update sin i g, (1000 <? tick)%Z).

(** The module-level [draw(tick)]. *)
Definition draw (tick : Z) (g : Game.t) : list Call := Game.draw g.

(** The device calling [update] with the ticks and inputs of [calls], one
    after the other, until [quit()] ends the program. *)
Fixpoint host_run (sin : Q -> Q) (calls : list (Z * Input)) (g : Game.t) : Game.t :=
  match calls with
  | [] => g
  | (tick, i) :: rest =>
      let '(g', quit) := update sin tick i g in
      if quit then g' else host_run sin rest g'
  end.

(** [Enemy.update] called [n] times. *)
Definition enemy_run (n : nat) (e : Enemy.t) : Enemy.t :=
  Nat.iter n Enemy.update e.

(** What a patrolling enemy satisfies between two updates: it is within
    one step of its range, it faces right only left of the far end and
    left only right of the near end. *)
Definition on_patrol (e : Enemy.t) : Prop :=
  Enemy.start_x e - Enemy.speed e <= Enemy.x e /\
  Enemy.x e <= Enemy.start_x e + Enemy.move_range e + Enemy.speed e /\
  ((Enemy.direction e = 1 /\
    (Enemy.x e <= Enemy.start_x e \/
     Enemy.x e < Enemy.start_x e + Enemy.move_range e)) \/
   (Enemy.direction e = - 1 /\ Enemy.start_x e < Enemy.x e)).

(** Number of ticks of a run on which the entities were updated: those
    on which X was not pressed and the game was not complete. *)
Fixpoint played_ticks (sin : Q -> Q) (inputs : list Input) (g : Game.t) : Z :=
  match inputs with
  | [] => 0%Z
  | i :: rest =>
      ((if pressed_X i || Game.game_complete g then 0 else 1) +
       played_ticks sin rest (Game.update sin i g))%Z
  end.

(** The bob offset of a collectible that has been updated [n] times. *)
Definition bob_after (sin : Q -> Q) (n : Z) : Q :=
  if (n =? 0)%Z then 0 else sin (inject_Z n * (1 # 10)) * 2.

(** A call that writes text. *)
Definition is_text (c : Call) : bool :=
  match c with
  | text _ _ _ => true
  | _ => false
  end.

(** A player that overlaps [platform] with its top below the platform's
    top (the second branch of the loop body). *)
Definition bumps_under (p : Player.t) (platform : Platform.t) : bool :=
  Player.rect_collision (Player.rect p) (Platform.get_rect platform) &&
  Qgt_bool (Player.y p) (Platform.y platform).

(** The player after it has been put under [platform]. *)
Definition bumped (platform : Platform.t) (p : Player.t) : Player.t :=
  Player.with_vel_y 0
    (Player.with_y (Platform.y platform + Platform.height platform) p).

(** [handle_collisions] as a search: the first platform that answers
    decides, the others are not looked at. *)
Definition first_response (platforms : list Platform.t) (p : Player.t) : Player.t :=
  if Qgt_bool (Player.vel_y p) 0 then
    match find (lands_on p) platforms with
    | Some q => landed (Platform.y q) p
    | None => Player.with_on_ground false p
    end
  else if Qlt_bool (Player.vel_y p) 0 then
    match find (bumps_under p) platforms with
    | Some q => bumped q (Player.with_on_ground false p)
    | None => Player.with_on_ground false p
    end
  else Player.with_on_ground false p.

(** All collectibles show the state of a collectible updated [n] times. *)
Definition in_phase (sin : Q -> Q) (n : Z) (cs : list Collectible.t) : Prop :=
  Forall (fun c => Collectible.tick_counter c = n /\
                   Collectible.bob_offset c = bob_after sin n) cs.

(** The player stays above the fall-off line on every tick of [inputs]. *)
Fixpoint never_falls (inputs : list Input) (ps : list Platform.t) (p : Player.t) : bool :=
  match inputs with
  | [] => true
  | i :: rest =>
      negb (Qgt_bool (Player.y (Player.update i ps p)) (SCREEN_HEIGHT + 20)) &&
      never_falls rest ps (Player.update i ps p)
  end.

(** ** Concrete states and runs used to exercise the theorems *)

(** A stand-in for [math.sin] that keeps every collectible still. *)
Definition flat (_ : Q) : Q := 0.

Definition R : Input := hold_right.
Definition L : Input := hold_left.
Definition N : Input := no_input.
Definition RA : Input := mkInput false true true false.

(** Thirty-three ticks that bring the player next to the star ... *)
Definition approach : list Input :=
  [R; R; R; R; R; R; R; RA; N; N; L; N; N; N; N; RA; N; N; N; L; L;
   N; N; N; N; N; R; R; R; R; R; R; R].

(** ... and the game one tick before it is won. *)
Definition before_win : Game.t := Game.run flat approach Game.init.

Definition with_player (p : Player.t) (g : Game.t) : Game.t :=
  Game.mk p (Game.platforms g) (Game.collectibles g) (Game.star g)
          (Game.score g) (Game.game_complete g).

(** The game once the star has been picked up. *)
Definition won : Game.t := Game.update flat R before_win.

(** A game in which the player is on its way up, with one pickup made. *)
Definition rising : Game.t := Game.run flat (firstn 9 approach) Game.init.

(** Two shelves that overlap, the lower one first in the list, and a
    player falling onto both of them. *)
Definition shelf_low : Platform.t := Platform.mk 0 10 20 8 BROWN.
Definition shelf_high : Platform.t := Platform.mk 0 8 20 8 BROWN.
Definition faller : Player.t := Player.mk 0 4 8 8 0 (1 # 2) false 0 4.

(** The player at rest on the ground after nine idle ticks. *)
Definition at_rest : Game.t := Game.run flat (repeat N 9) Game.init.

(** The same game with the player moved to y = SCREEN_HEIGHT + 21. *)
Definition dropped (g : Game.t) : Game.t :=
  with_player (Player.with_y (SCREEN_HEIGHT + 21) (Game.player g)) g.

(** Thirty-five ticks that win the game. *)
Definition winning_inputs : list Input := approach ++ [R; R].

Definition LA : Input := mkInput true false true false.

(** A hundred and twenty-two ticks that collect everything, the star last. *)
Definition perfect_inputs : list Input :=
  [R; R; R; R; R; R; R; RA; L; L; L; L; L; L; R; R; R; R; R; RA; N; N; N; N;
   N; N; L; L; L; L; L; L; R; RA; R; R; R; R; R; R; R; R; R; R; R; R; R; R;
   R; R; R; R; R; R; R; R; R; R; R; R; R; R; R; R; R; R; L; L; L; L; L; L;
   L; L; L; L; L; RA; R; R; R; R; N; N; L; L; L; L; N; N; N; press_A; N; N;
   N; R; R; R; R; RA; N; N; N; N; N; N; N; N; N; N; N; L; L; L; L; L; L; L;
   L; L; L; L].

(** A call that selects the yellow pen. *)
Definition is_yellow_pen (c : Call) : bool :=
  match c with
  | pen (15, 15, 0)%Z => true
  | _ => false
  end.

(** * Properties *)

(** ** Boolean comparisons against the order of [Q] *)

Lemma Qlt_bool_iff (a b : Q) : Qlt_bool a b = true <-> a < b.
Proof. unfold Qlt_bool, Qlt. apply Z.ltb_lt. Qed.

Lemma Qlt_bool_nlt (a b : Q) : Qlt_bool a b = false <-> b <= a.
Proof. unfold Qlt_bool, Qle. apply Z.ltb_ge. Qed.

Lemma Qgt_bool_iff (a b : Q) : Qgt_bool a b = true <-> b < a.
Proof. apply Qlt_bool_iff. Qed.

Lemma Qgt_bool_ngt (a b : Q) : Qgt_bool a b = false <-> a <= b.
Proof. apply Qlt_bool_nlt. Qed.

(** Split on every comparison of the goal and record its meaning. *)
Ltac compare_all :=
  repeat match goal with
  | |- context [Qgt_bool ?a ?b] =>
      let E := fresh "E" in
      destruct (Qgt_bool a b) eqn:E;
      [apply Qgt_bool_iff in E | apply Qgt_bool_ngt in E]
  | |- context [Qlt_bool ?a ?b] =>
      let E := fresh "E" in
      destruct (Qlt_bool a b) eqn:E;
      [apply Qlt_bool_iff in E | apply Qlt_bool_nlt in E]
  end.

Lemma rect_collision_iff (x1 y1 w1 h1 x2 y2 w2 h2 : Q) :
  Player.rect_collision (x1, y1, w1, h1) (x2, y2, w2, h2) = true <->
  x1 < x2 + w2 /\ x1 + w1 > x2 /\ y1 < y2 + h2 /\ y1 + h1 > y2.
Proof.
  unfold Player.rect_collision.
  rewrite !andb_true_iff, !Qlt_bool_iff, !Qgt_bool_iff. tauto.
Qed.

(** ** Geometry *)

(** C8.  The overlap test is exactly the conjunction of the four strict
    inequalities; hence it does not depend on the order of its arguments,
    and two rectangles that share only an edge do not overlap. *)
Theorem rect_collision_strict_overlap :
  forall x1 y1 w1 h1 x2 y2 w2 h2 : Q,
    (Player.rect_collision (x1, y1, w1, h1) (x2, y2, w2, h2) = true <->
     x1 < x2 + w2 /\ x1 + w1 > x2 /\ y1 < y2 + h2 /\ y1 + h1 > y2) /\
    Player.rect_collision (x1, y1, w1, h1) (x2, y2, w2, h2) =
    Player.rect_collision (x2, y2, w2, h2) (x1, y1, w1, h1) /\
    Player.rect_collision (0, 0, 10, 10) (10, 0, 10, 10) = false.
Proof.
  intros. split; [apply rect_collision_iff | split; [| reflexivity]].
  unfold Player.rect_collision, Qgt_bool.
  destruct (Qlt_bool x1 (x2 + w2)), (Qlt_bool x2 (x1 + w1)),
           (Qlt_bool y1 (y2 + h2)), (Qlt_bool y2 (y1 + h1)); reflexivity.
Qed.

(** ** The layout is never touched *)

Lemma handle_collisions_fold_shape (r : Rect) (ps : list Platform.t) :
  forall p, player_shape (fold_left (Player.collide r) ps p) = player_shape p.
Proof.
  induction ps as [| q ps IH]; intro p; simpl; [reflexivity |].
  rewrite IH. unfold Player.collide.
  repeat match goal with |- context [if ?b then _ else _] => destruct b end;
    reflexivity.
Qed.

Lemma keep_on_screen_shape (p : Player.t) :
  player_shape (Player.keep_on_screen p) = player_shape p.
Proof.
  unfold Player.keep_on_screen.
  repeat match goal with |- context [if ?b then _ else _] => destruct b end;
    reflexivity.
Qed.

Lemma before_collisions_shape (i : Input) (p : Player.t) :
  player_shape (Player.before_collisions i p) = player_shape p.
Proof.
  unfold Player.before_collisions, Player.jump, Player.handle_input.
  destruct p as [? ? ? ? ? ? g ? ?].
  destruct (button_LEFT i), (button_RIGHT i), (pressed_A i), g; reflexivity.
Qed.

Lemma player_update_shape (i : Input) (ps : list Platform.t) (p : Player.t) :
  player_shape (Player.update i ps p) = player_shape p.
Proof.
  unfold Player.update, Player.handle_collisions.
  rewrite keep_on_screen_shape, handle_collisions_fold_shape.
  apply before_collisions_shape.
Qed.

Lemma visit_shape (sin : Q -> Q) (p : Player.t) (c : Collectible.t) (sc : Z) :
  collectible_shape (fst (Game.visit sin p c sc)) = collectible_shape c.
Proof.
  unfold Game.visit.
  repeat match goal with |- context [if ?b then _ else _] => destruct b end;
    reflexivity.
Qed.

Lemma update_collectibles_shape (sin : Q -> Q) (p : Player.t) :
  forall cs sc,
    map collectible_shape (fst (Game.update_collectibles sin p cs sc)) =
    map collectible_shape cs.
Proof.
  induction cs as [| c cs IH]; intro sc; simpl; [reflexivity |].
  pose proof (visit_shape sin p c sc) as Hc.
  destruct (Game.visit sin p c sc) as [c' sc1]. simpl in Hc.
  specialize (IH sc1).
  destruct (Game.update_collectibles sin p cs sc1) as [cs' sc2].
  simpl in *. now rewrite Hc, IH.
Qed.

Lemma restart_level_layout (g : Game.t) : layout (Game.restart_level g) = layout g.
Proof.
  unfold layout, Game.restart_level. simpl.
  rewrite map_map. reflexivity.
Qed.

Lemma advance_layout (sin : Q -> Q) (i : Input) (g : Game.t) :
  layout (Game.advance sin i g) = layout g.
Proof.
  unfold Game.advance.
  pose proof (update_collectibles_shape sin
                (Player.update i (Game.platforms g) (Game.player g))
                (Game.collectibles g) (Game.score g)) as H.
  destruct (Game.update_collectibles _ _ _ _) as [cs sc]. simpl in H.
  unfold layout. simpl. now rewrite H, player_update_shape.
Qed.

Lemma update_layout (sin : Q -> Q) (i : Input) (g : Game.t) :
  layout (Game.update sin i g) = layout g.
Proof.
  unfold Game.update.
  destruct (pressed_X i); [apply restart_level_layout |].
  destruct (Game.game_complete g); [reflexivity |].
  assert (H : layout (if Game.fell_off (Game.advance sin i g)
                      then Game.restart_level (Game.advance sin i g)
                      else Game.advance sin i g) = layout g).
  { destruct (Game.fell_off _);
      [rewrite restart_level_layout |]; apply advance_layout. }
  destruct (Game.star_collected _); exact H.
Qed.

Lemma run_snoc (sin : Q -> Q) (inputs : list Input) (i : Input) (g : Game.t) :
  Game.run sin (inputs ++ [i]) g = Game.update sin i (Game.run sin inputs g).
Proof. unfold Game.run. now rewrite fold_left_app. Qed.

Lemma run_layout (sin : Q -> Q) (inputs : list Input) :
  layout (Game.run sin inputs Game.init) = layout Game.init.
Proof.
  induction inputs as [| i inputs IH] using rev_ind; [reflexivity |].
  rewrite run_snoc, update_layout. exact IH.
Qed.

Lemma run_player_shape (sin : Q -> Q) (inputs : list Input) :
  player_shape (Game.player (Game.run sin inputs Game.init)) = (8, 8, 20, 80).
Proof.
  exact (f_equal (fun l => fst (fst (fst l))) (run_layout sin inputs)).
Qed.

Lemma run_platforms (sin : Q -> Q) (inputs : list Input) :
  Game.platforms (Game.run sin inputs Game.init) = Game.level_platforms.
Proof.
  exact (f_equal (fun l => snd (fst (fst l))) (run_layout sin inputs)).
Qed.

(** ** The game state machine: Complete and restart *)

(** C7.  Once the game is complete, a tick without the restart button
    leaves the whole game state as it is. *)
Theorem complete_freezes_game :
  forall (sin : Q -> Q) (i : Input) (g : Game.t),
    Game.game_complete g = true ->
    pressed_X i = false ->
    Game.update sin i g = g.
Proof.
  intros sin i g Hc Hx. unfold Game.update. now rewrite Hx, Hc.
Qed.

Lemma complete_freezes_game_witness :
  Game.game_complete won = true /\ pressed_X N = false /\
  Game.update flat N won = won.
Proof.
  split; [vm_compute; reflexivity |].
  split; [reflexivity |].
  apply complete_freezes_game; vm_compute; reflexivity.
Defined.

Lemma restart_level_collected (g : Game.t) :
  Forall (fun c => Collectible.collected c = false)
         (Game.collectibles (Game.restart_level g)).
Proof.
  unfold Game.restart_level. simpl.
  induction (Game.collectibles g); simpl; constructor; auto.
Qed.

(** C2.  A tick on which X is pressed does the reset and nothing else,
    whatever the state (Complete included); afterwards the player is at its
    construction position with zero velocity, the score is 0, no collectible
    is collected and the game is not complete.  In a running game the
    construction position is (20, 80). *)
Theorem restart_pressed_resets :
  forall sin : Q -> Q,
    (forall (i : Input) (g : Game.t),
        pressed_X i = true ->
        let g' := Game.update sin i g in
        g' = Game.restart_level g /\
        Player.x (Game.player g') = Player.start_x (Game.player g) /\
        Player.y (Game.player g') = Player.start_y (Game.player g) /\
        Player.vel_x (Game.player g') = 0 /\
        Player.vel_y (Game.player g') = 0 /\
        Game.score g' = 0%Z /\
        Forall (fun c => Collectible.collected c = false) (Game.collectibles g') /\
        Game.game_complete g' = false) /\
    (forall (inputs : list Input) (i : Input),
        pressed_X i = true ->
        let g' := Game.update sin i (Game.run sin inputs Game.init) in
        Player.x (Game.player g') = 20 /\ Player.y (Game.player g') = 80).
Proof.
  intro sin. split.
  - intros i g Hx g'.
    assert (E : g' = Game.restart_level g)
      by (unfold g', Game.update; now rewrite Hx).
    rewrite E. repeat split. apply restart_level_collected.
  - intros inputs i Hx g'.
    assert (E : g' = Game.restart_level (Game.run sin inputs Game.init))
      by (unfold g', Game.update; now rewrite Hx).
    pose proof (run_player_shape sin inputs) as Hs.
    unfold player_shape in Hs. injection Hs as _ _ Hsx Hsy.
    rewrite E. simpl. now rewrite Hsx, Hsy.
Qed.

Lemma restart_pressed_resets_witness :
  Game.update flat press_X won = Game.restart_level won /\
  Game.game_complete won = true /\
  Game.game_complete (Game.update flat press_X won) = false /\
  Player.x (Game.player (Game.update flat press_X (Game.run flat approach Game.init))) = 20.
Proof.
  destruct (restart_pressed_resets flat) as [H1 H2].
  destruct (H1 press_X won eq_refl) as [Ha [_ [_ [_ [_ [_ [_ Hb]]]]]]].
  destruct (H2 approach press_X eq_refl) as [Hc _].
  split; [exact Ha |].
  split; [vm_compute; reflexivity |].
  split; [exact Hb | exact Hc].
Defined.

(** C10.  [restart_level] writes the player's position, velocity and
    on_ground, the score, the collected flags and game_complete, and
    nothing else: platforms, the star reference, every collectible's
    position, size, tick_counter and bob_offset and the player's size and
    start position are as before.  It is what a tick does when X is pressed,
    and what a tick does last when the player has fallen off the bottom. *)
Theorem restart_keeps_level_and_animation :
  forall sin : Q -> Q,
    (forall g : Game.t,
        let g' := Game.restart_level g in
        Game.platforms g' = Game.platforms g /\
        Game.star g' = Game.star g /\
        Game.collectibles g' =
          map (Collectible.with_collected false) (Game.collectibles g) /\
        map Collectible.tick_counter (Game.collectibles g') =
          map Collectible.tick_counter (Game.collectibles g) /\
        map Collectible.bob_offset (Game.collectibles g') =
          map Collectible.bob_offset (Game.collectibles g) /\
        map collectible_shape (Game.collectibles g') =
          map collectible_shape (Game.collectibles g) /\
        player_shape (Game.player g') = player_shape (Game.player g)) /\
    (forall (i : Input) (g : Game.t),
        pressed_X i = true ->
        Game.update sin i g = Game.restart_level g) /\
    (forall (i : Input) (g : Game.t),
        pressed_X i = false ->
        Game.game_complete g = false ->
        Game.fell_off (Game.advance sin i g) = true ->
        Game.update sin i g = Game.restart_level (Game.advance sin i g)).
Proof.
  intro sin. split; [| split].
  - intro g. simpl. rewrite !map_map. simpl. repeat split.
  - intros i g Hx. unfold Game.update. now rewrite Hx.
  - intros i g Hx Hc Hf. unfold Game.update. rewrite Hx, Hc, Hf.
    assert (Hs : Game.star_collected (Game.restart_level (Game.advance sin i g)) = false).
    { unfold Game.star_collected, Game.star_object.
      destruct (nth_error _ _) as [c |] eqn:E; [| reflexivity].
      apply nth_error_In in E.
      pose proof (restart_level_collected (Game.advance sin i g)) as HF.
      rewrite Forall_forall in HF. now apply HF. }
    now rewrite Hs.
Qed.

Lemma restart_keeps_level_and_animation_witness :
  Game.update flat press_X before_win = Game.restart_level before_win /\
  map Collectible.tick_counter (Game.collectibles (Game.restart_level before_win)) =
    map Collectible.tick_counter (Game.collectibles before_win) /\
  Game.fell_off (Game.advance flat N (dropped before_win)) = true /\
  Game.update flat N (dropped before_win) =
    Game.restart_level (Game.advance flat N (dropped before_win)).
Proof.
  destruct (restart_keeps_level_and_animation flat) as [H1 [H2 H3]].
  split; [apply H2; reflexivity |].
  split; [apply (H1 before_win) |].
  split; [vm_compute; reflexivity |].
  apply H3; vm_compute; reflexivity.
Defined.

(** ** Jumping *)

Lemma collide_not_falling (r : Rect) (ps : list Platform.t) :
  forall p,
    Qgt_bool (Player.vel_y p) 0 = false ->
    Player.on_ground p = false ->
    Player.on_ground (fold_left (Player.collide r) ps p) = false.
Proof.
  induction ps as [| q ps IH]; intros p Hv Hg; simpl; [exact Hg |].
  apply IH; unfold Player.collide; rewrite Hv;
    repeat match goal with |- context [if ?b then _ else _] => destruct b end;
    simpl; auto.
Qed.

Lemma keep_on_screen_on_ground (p : Player.t) :
  Player.on_ground (Player.keep_on_screen p) = Player.on_ground p.
Proof.
  unfold Player.keep_on_screen.
  repeat match goal with |- context [if ?b then _ else _] => destruct b end;
    reflexivity.
Qed.

(** C9.  When A is freshly pressed on the ground, the velocity with which
    the position is updated on that very tick is JUMP_STRENGTH + GRAVITY and
    on_ground is cleared (and is still clear when the tick ends); and on
    every tick the position is updated with the velocity left by the jump
    statement plus GRAVITY. *)
Theorem jump_and_gravity_add_up :
  forall (i : Input) (p : Player.t),
    (pressed_A i = true ->
     Player.on_ground p = true ->
     Player.vel_y (Player.apply_gravity (Player.jump i (Player.handle_input i p)))
       = JUMP_STRENGTH + GRAVITY /\
     Player.y (Player.before_collisions i p)
       = Player.y p + (JUMP_STRENGTH + GRAVITY) /\
     Player.on_ground (Player.jump i (Player.handle_input i p)) = false /\
     forall platforms, Player.on_ground (Player.update i platforms p) = false) /\
    Player.vel_y (Player.apply_gravity (Player.jump i (Player.handle_input i p)))
      = Player.vel_y (Player.jump i (Player.handle_input i p)) + GRAVITY /\
    Player.y (Player.before_collisions i p)
      = Player.y p +
        (Player.vel_y (Player.jump i (Player.handle_input i p)) + GRAVITY).
Proof.
  intros i p. split; [intros Ha Hg | split].
  - assert (Hj : Player.jump i (Player.handle_input i p) =
                 Player.with_on_ground false
                   (Player.with_vel_y JUMP_STRENGTH (Player.handle_input i p))).
    { unfold Player.jump.
      replace (Player.on_ground (Player.handle_input i p)) with true.
      - now rewrite Ha.
      - rewrite <- Hg. unfold Player.handle_input.
        destruct (button_LEFT i), (button_RIGHT i); reflexivity. }
    repeat split.
    + now rewrite Hj.
    + unfold Player.before_collisions. rewrite Hj. unfold Player.handle_input.
      destruct (button_LEFT i), (button_RIGHT i); reflexivity.
    + now rewrite Hj.
    + intro platforms. unfold Player.update, Player.handle_collisions.
      rewrite keep_on_screen_on_ground.
      apply collide_not_falling; [| reflexivity].
      unfold Player.before_collisions. rewrite Hj. reflexivity.
  - reflexivity.
  - unfold Player.before_collisions, Player.jump, Player.handle_input.
    destruct p as [? ? ? ? ? ? g ? ?].
    destruct (button_LEFT i), (button_RIGHT i), (pressed_A i), g; reflexivity.
Qed.

Lemma jump_and_gravity_add_up_witness :
  pressed_A press_A = true /\
  Player.on_ground (Game.player at_rest) = true /\
  Player.vel_y (Player.apply_gravity
                  (Player.jump press_A
                     (Player.handle_input press_A (Game.player at_rest))))
    = JUMP_STRENGTH + GRAVITY.
Proof.
  split; [reflexivity |].
  split; [vm_compute; reflexivity |].
  apply (jump_and_gravity_add_up press_A (Game.player at_rest));
    vm_compute; reflexivity.
Defined.

(** ** Horizontal motion *)

Lemma handle_collisions_fold_x (r : Rect) (ps : list Platform.t) :
  forall p, Player.x (fold_left (Player.collide r) ps p) = Player.x p.
Proof.
  induction ps as [| q ps IH]; intro p; simpl; [reflexivity |].
  rewrite IH. unfold Player.collide.
  repeat match goal with |- context [if ?b then _ else _] => destruct b end;
    reflexivity.
Qed.

Lemma before_collisions_x (i : Input) (p : Player.t) :
  Player.x (Player.before_collisions i p) = Player.x p + input_vel_x i.
Proof.
  unfold Player.before_collisions, Player.jump, Player.handle_input, input_vel_x.
  destruct p as [? ? ? ? ? ? g ? ?].
  destruct (button_LEFT i), (button_RIGHT i), (pressed_A i), g; reflexivity.
Qed.

Lemma player_update_width (i : Input) (ps : list Platform.t) (p : Player.t) :
  Player.width (Player.update i ps p) = Player.width p.
Proof.
  exact (f_equal (fun s => fst (fst (fst s))) (player_update_shape i ps p)).
Qed.

Lemma keep_on_screen_x (q : Player.t) :
  Player.x (Player.keep_on_screen q) =
  if Qlt_bool (Player.x q) 0 then 0
  else if Qgt_bool (Player.x q + Player.width q) SCREEN_WIDTH
       then SCREEN_WIDTH - Player.width q
       else Player.x q.
Proof.
  unfold Player.keep_on_screen.
  repeat match goal with |- context [if ?b then _ else _] => destruct b end;
    reflexivity.
Qed.

(** The horizontal position after one [Player.update]. *)
Lemma player_update_x (i : Input) (ps : list Platform.t) (p : Player.t) :
  Player.x (Player.update i ps p) =
  if Qlt_bool (Player.x p + input_vel_x i) 0 then 0
  else if Qgt_bool (Player.x p + input_vel_x i + Player.width p) SCREEN_WIDTH
       then SCREEN_WIDTH - Player.width p
       else Player.x p + input_vel_x i.
Proof.
  assert (Hx : Player.x (Player.handle_collisions ps (Player.before_collisions i p))
               = Player.x p + input_vel_x i).
  { unfold Player.handle_collisions. rewrite handle_collisions_fold_x.
    cbn [Player.x Player.with_on_ground]. apply before_collisions_x. }
  assert (Hw : Player.width (Player.handle_collisions ps (Player.before_collisions i p))
               = Player.width p).
  { unfold Player.handle_collisions.
    rewrite (f_equal (fun s => fst (fst (fst s)))
               (handle_collisions_fold_shape _ ps _)
             : Player.width (fold_left _ ps _) = Player.width _).
    cbn [Player.width Player.with_on_ground].
    exact (f_equal (fun s => fst (fst (fst s))) (before_collisions_shape i p)). }
  unfold Player.update. rewrite keep_on_screen_x, Hx, Hw. reflexivity.
Qed.

Lemma player_update_x_range (i : Input) (ps : list Platform.t) (p : Player.t) :
  Player.width p = 8 ->
  0 <= Player.x (Player.update i ps p) <= SCREEN_WIDTH - 8.
Proof.
  intro Hw. rewrite player_update_x, Hw. unfold SCREEN_WIDTH.
  compare_all; lra.
Qed.

Lemma inject_nat_succ (k : nat) :
  inject_Z (Z.of_nat (S k)) == inject_Z (Z.of_nat k) + 1.
Proof. rewrite Nat2Z.inj_succ, <- Z.add_1_r, inject_Z_plus. reflexivity. Qed.

Lemma inject_nat_le (n k : nat) :
  (n <= k)%nat -> inject_Z (Z.of_nat n) <= inject_Z (Z.of_nat k).
Proof. intro H. rewrite <- Zle_Qle. lia. Qed.

Lemma hold_left_reaches_zero (ps : list Platform.t) :
  forall (inputs : list Input) (p : Player.t) (k : nat),
    Player.width p = 8 ->
    Forall (fun i => button_LEFT i = true) inputs ->
    Player.x p = 0 \/
      (0 <= Player.x p /\ Player.x p <= 112 - 2 * inject_Z (Z.of_nat k)) ->
    (57 <= k + length inputs)%nat ->
    Player.x (Player.run inputs ps p) = 0.
Proof.
  induction inputs as [| i inputs IH]; intros p k Hw Hl Hx Hk.
  - destruct Hx as [Hx | [H0 H1]]; [exact Hx |]. simpl in Hk.
    pose proof (inject_nat_le 57 k ltac:(lia)) as H57.
    change (inject_Z (Z.of_nat 57)) with 57 in H57. lra.
  - inversion Hl as [| ? ? Hi Hrest]; subst.
    change (Player.run (i :: inputs) ps p)
      with (Player.run inputs ps (Player.update i ps p)).
    apply (IH _ (S k)); [now rewrite player_update_width | exact Hrest | | simpl in *; lia].
    rewrite player_update_x, Hw. unfold input_vel_x. rewrite Hi.
    unfold PLAYER_SPEED, SCREEN_WIDTH.
    destruct Hx as [Hx | [H0 H1]].
    + rewrite Hx. left. reflexivity.
    + pose proof (inject_nat_succ k) as Hs.
      compare_all; first [lra | left; reflexivity | right; lra].
Qed.

Lemma hold_right_reaches_edge (ps : list Platform.t) :
  forall (inputs : list Input) (p : Player.t) (k : nat),
    Player.width p = 8 ->
    Forall (fun i => button_LEFT i = false /\ button_RIGHT i = true) inputs ->
    Player.x p = SCREEN_WIDTH - 8 \/
      (2 * inject_Z (Z.of_nat k) <= Player.x p /\ Player.x p <= 112) ->
    (57 <= k + length inputs)%nat ->
    Player.x (Player.run inputs ps p) = SCREEN_WIDTH - 8.
Proof.
  induction inputs as [| i inputs IH]; intros p k Hw Hl Hx Hk.
  - destruct Hx as [Hx | [H0 H1]]; [exact Hx |]. simpl in Hk.
    pose proof (inject_nat_le 57 k ltac:(lia)) as H57.
    change (inject_Z (Z.of_nat 57)) with 57 in H57. lra.
  - inversion Hl as [| ? ? [Hi Hj] Hrest]; subst.
    change (Player.run (i :: inputs) ps p)
      with (Player.run inputs ps (Player.update i ps p)).
    apply (IH _ (S k)); [now rewrite player_update_width | exact Hrest | | simpl in *; lia].
    rewrite player_update_x, Hw. unfold input_vel_x. rewrite Hi, Hj.
    unfold PLAYER_SPEED, SCREEN_WIDTH.
    destruct Hx as [Hx | [H0 H1]].
    + rewrite Hx. left. reflexivity.
    + pose proof (inject_nat_succ k) as Hs.
      pose proof (inject_nat_le 0 k ltac:(lia)) as Hk0.
      change (inject_Z (Z.of_nat 0)) with 0 in Hk0.
      compare_all; first [lra | left; reflexivity | right; lra].
Qed.

(** The player after a tick is the old one, the updated one, or one of
    these reset. *)
Lemma update_player_cases (sin : Q -> Q) (i : Input) (g : Game.t) :
  let p := Game.player g in
  let q := Player.update i (Game.platforms g) p in
  Game.player (Game.update sin i g) = p \/
  Game.player (Game.update sin i g) = Player.reset p \/
  Game.player (Game.update sin i g) = q \/
  Game.player (Game.update sin i g) = Player.reset q.
Proof.
  intros p q. unfold Game.update.
  destruct (pressed_X i); [right; left; reflexivity |].
  destruct (Game.game_complete g); [left; reflexivity |].
  assert (Ha : Game.player (Game.advance sin i g) = q).
  { unfold Game.advance.
    destruct (Game.update_collectibles _ _ _ _); reflexivity. }
  destruct (Game.fell_off _); destruct (Game.star_collected _); simpl;
    rewrite Ha; auto.
Qed.

Lemma run_player_x_range (sin : Q -> Q) (inputs : list Input) :
  0 <= Player.x (Game.player (Game.run sin inputs Game.init)) <= 112.
Proof.
  induction inputs as [| i inputs IH] using rev_ind.
  - simpl. lra.
  - rewrite run_snoc.
    pose proof (run_player_shape sin inputs) as Hs.
    set (g := Game.run sin inputs Game.init) in *.
    unfold player_shape in Hs. injection Hs as Hw _ Hsx _.
    pose proof (player_update_x_range i (Game.platforms g) (Game.player g) Hw) as Hr.
    pose proof (f_equal (fun s => snd (fst s))
                  (player_update_shape i (Game.platforms g) (Game.player g))) as Hq.
    simpl in Hq. rewrite Hsx in Hq.
    unfold SCREEN_WIDTH in Hr.
    destruct (update_player_cases sin i g) as [E | [E | [E | E]]];
      rewrite E; simpl; rewrite ?Hsx, ?Hq; try lra; exact IH.
Qed.

(** C5.  [Player.update] always leaves x in [0, SCREEN_WIDTH - width],
    which is [0, 112]; so does every tick of the game.  With LEFT held, x
    is exactly 0 after 58 ticks from any start (and after any larger
    number of ticks); with RIGHT held alone it is exactly
    SCREEN_WIDTH - width. *)
Theorem horizontal_position_clamped :
  (forall (i : Input) (ps : list Platform.t) (p : Player.t),
      Player.width p = 8 ->
      0 <= Player.x (Player.update i ps p) <= SCREEN_WIDTH - Player.width p) /\
  (forall (sin : Q -> Q) (inputs : list Input),
      0 <= Player.x (Game.player (Game.run sin inputs Game.init)) <= 112) /\
  (forall (inputs : list Input) (ps : list Platform.t) (p : Player.t),
      Player.width p = 8 ->
      Forall (fun i => button_LEFT i = true) inputs ->
      (58 <= length inputs)%nat ->
      Player.x (Player.run inputs ps p) = 0) /\
  (forall (inputs : list Input) (ps : list Platform.t) (p : Player.t),
      Player.width p = 8 ->
      Forall (fun i => button_LEFT i = false /\ button_RIGHT i = true) inputs ->
      (58 <= length inputs)%nat ->
      Player.x (Player.run inputs ps p) = SCREEN_WIDTH - Player.width p).
Proof.
  split; [| split; [| split]].
  - intros i ps p Hw. rewrite Hw. now apply player_update_x_range.
  - apply run_player_x_range.
  - intros [| i inputs] ps p Hw Hl Hn; [simpl in Hn; lia |].
    inversion Hl as [| ? ? Hi Hrest]; subst.
    change (Player.run (i :: inputs) ps p)
      with (Player.run inputs ps (Player.update i ps p)).
    apply (hold_left_reaches_zero ps inputs _ 0);
      [now rewrite player_update_width | exact Hrest | | simpl in Hn; lia].
    right. pose proof (player_update_x_range i ps p Hw) as Hr.
    unfold SCREEN_WIDTH in Hr. change (inject_Z (Z.of_nat 0)) with 0. lra.
  - intros [| i inputs] ps p Hw Hl Hn; [simpl in Hn; lia |].
    inversion Hl as [| ? ? Hi Hrest]; subst.
    change (Player.run (i :: inputs) ps p)
      with (Player.run inputs ps (Player.update i ps p)).
    rewrite Hw.
    apply (hold_right_reaches_edge ps inputs _ 0);
      [now rewrite player_update_width | exact Hrest | | simpl in Hn; lia].
    right. pose proof (player_update_x_range i ps p Hw) as Hr.
    unfold SCREEN_WIDTH in Hr. change (inject_Z (Z.of_nat 0)) with 0. lra.
Qed.

Lemma horizontal_position_clamped_witness :
  Player.width (Game.player before_win) = 8 /\
  Player.x (Player.run (repeat L 58) Game.level_platforms (Game.player before_win)) = 0 /\
  Player.x (Player.run (repeat R 58) Game.level_platforms (Game.player before_win))
    = SCREEN_WIDTH - Player.width (Game.player before_win) /\
  0 <= Player.x (Player.update RA Game.level_platforms (Game.player before_win))
    <= SCREEN_WIDTH - Player.width (Game.player before_win).
Proof.
  destruct horizontal_position_clamped as [H1 [_ [H3 H4]]].
  assert (Hw : Player.width (Game.player before_win) = 8)
    by (vm_compute; reflexivity).
  split; [exact Hw |].
  split; [apply H3; [exact Hw | repeat constructor | simpl; lia] |].
  split; [apply H4; [exact Hw | repeat constructor | simpl; lia] |].
  apply H1; exact Hw.
Defined.

(** ** Collecting *)

Lemma visit_fst (sin : Q -> Q) (p : Player.t) (c : Collectible.t) (sc : Z) :
  fst (Game.visit sin p c sc) = visited sin p c.
Proof.
  unfold visited, Game.visit.
  repeat match goal with |- context [if ?b then _ else _] => destruct b end;
    reflexivity.
Qed.

Lemma update_collectibles_fst (sin : Q -> Q) (p : Player.t) :
  forall cs sc,
    fst (Game.update_collectibles sin p cs sc) = map (visited sin p) cs.
Proof.
  induction cs as [| c cs IH]; intro sc; simpl; [reflexivity |].
  pose proof (visit_fst sin p c sc) as Hc.
  destruct (Game.visit sin p c sc) as [c' sc1]. simpl in Hc.
  specialize (IH sc1).
  destruct (Game.update_collectibles sin p cs sc1) as [cs' sc2].
  simpl in *. now rewrite Hc, IH.
Qed.

(** A visit keeps a set flag, and sets a clear one exactly when the
    player overlaps the freshly bobbed rectangle. *)
Lemma visited_collected (sin : Q -> Q) (p : Player.t) (c : Collectible.t) :
  Collectible.collected (visited sin p c) =
  Collectible.collected c ||
  Player.rect_collision (Player.rect p)
    (Collectible.get_rect (Collectible.update sin c)).
Proof.
  unfold visited, Game.visit.
  destruct c as [? ? ? ? flag ? ? ?].
  destruct flag; [reflexivity |].
  cbn [negb Collectible.collected Collectible.update].
  destruct (Player.rect_collision _ _); reflexivity.
Qed.

Lemma collected_count_cons (c : Collectible.t) (cs : list Collectible.t) :
  Game.collected_count (c :: cs) =
  ((if Collectible.collected c then 1 else 0) + Game.collected_count cs)%Z.
Proof.
  unfold Game.collected_count. simpl.
  destruct (Collectible.collected c); simpl length; lia.
Qed.

Lemma newly_collected_nonneg :
  forall before after, (0 <= Game.newly_collected before after)%Z.
Proof.
  induction before as [| b bs IH]; intros [| a az]; simpl; try lia.
  specialize (IH az).
  destruct (negb (Collectible.collected b) && Collectible.collected a); lia.
Qed.

Lemma newly_collected_same (cs : list Collectible.t) :
  Game.newly_collected cs cs = 0%Z.
Proof.
  induction cs as [| c cs IH]; simpl; [reflexivity |].
  rewrite IH. destruct (Collectible.collected c); reflexivity.
Qed.

(** The loop adds 10 per flag it sets, and the number of set flags grows
    by the number of flags it sets. *)
Lemma update_collectibles_score (sin : Q -> Q) (p : Player.t) :
  forall cs sc,
    snd (Game.update_collectibles sin p cs sc) =
      (sc + 10 * Game.newly_collected cs (map (visited sin p) cs))%Z /\
    Game.collected_count (map (visited sin p) cs) =
      (Game.collected_count cs + Game.newly_collected cs (map (visited sin p) cs))%Z.
Proof.
  induction cs as [| c cs IH]; intro sc;
    cbn [Game.update_collectibles map Game.newly_collected].
  - split; [cbn [snd]; lia | reflexivity].
  - rewrite !collected_count_cons.
    pose proof (visit_fst sin p c sc) as Hc.
    pose proof (visited_collected sin p c) as Hv.
    assert (Hs : snd (Game.visit sin p c sc) =
                 (sc + 10 * (if negb (Collectible.collected c) &&
                                Collectible.collected (visited sin p c)
                             then 1 else 0))%Z).
    { rewrite Hv. unfold Game.visit.
      destruct c as [? ? ? ? flag ? ? ?].
      destruct flag; [cbn [snd negb andb orb Collectible.collected Collectible.update]; lia |].
      cbn [negb orb andb Collectible.collected Collectible.update].
      destruct (Player.rect_collision _ _); cbn [snd]; lia. }
    destruct (Game.visit sin p c sc) as [c' sc1]. cbn [fst snd] in Hc, Hs.
    subst c' sc1.
    destruct (IH (sc + 10 * (if negb (Collectible.collected c) &&
                                Collectible.collected (visited sin p c)
                             then 1 else 0))%Z) as [IH1 IH2].
    destruct (Game.update_collectibles sin p cs _) as [cs' sc2].
    cbn [fst snd] in *. rewrite IH1, IH2.
    destruct (Collectible.collected c), (Collectible.collected (visited sin p c));
      cbn [negb andb orb] in *; try discriminate; lia.
Qed.

Lemma advance_eq (sin : Q -> Q) (i : Input) (g : Game.t) :
  let p := Player.update i (Game.platforms g) (Game.player g) in
  Game.advance sin i g =
  Game.mk p (Game.platforms g) (map (visited sin p) (Game.collectibles g))
          (Game.star g)
          (Game.score g +
           10 * Game.newly_collected (Game.collectibles g)
                  (map (visited sin p) (Game.collectibles g)))%Z
          (Game.game_complete g).
Proof.
  intro p. unfold Game.advance. fold p.
  pose proof (update_collectibles_fst sin p (Game.collectibles g) (Game.score g)) as H1.
  destruct (update_collectibles_score sin p (Game.collectibles g) (Game.score g)) as [H2 _].
  destruct (Game.update_collectibles sin p _ _) as [cs sc].
  simpl in H1, H2. now rewrite H1, H2.
Qed.

Lemma restart_level_count (g : Game.t) :
  Game.collected_count (Game.collectibles (Game.restart_level g)) = 0%Z.
Proof.
  unfold Game.restart_level. simpl.
  induction (Game.collectibles g) as [| c cs IH]; [reflexivity |].
  simpl map. rewrite collected_count_cons, IH. reflexivity.
Qed.

Lemma restart_level_star_collected (g : Game.t) :
  Game.star_collected (Game.restart_level g) = false.
Proof.
  unfold Game.star_collected, Game.star_object.
  destruct (nth_error _ _) as [c |] eqn:E; [| reflexivity].
  apply nth_error_In in E.
  pose proof (restart_level_collected g) as HF.
  rewrite Forall_forall in HF. now apply HF.
Qed.

(** What one tick does, case by case. *)
Lemma update_cases (sin : Q -> Q) (i : Input) (g : Game.t) :
  let a := Game.advance sin i g in
  (pressed_X i = true /\ Game.update sin i g = Game.restart_level g) \/
  (pressed_X i = false /\ Game.game_complete g = true /\ Game.update sin i g = g) \/
  (pressed_X i = false /\ Game.game_complete g = false /\
   Game.fell_off a = true /\ Game.update sin i g = Game.restart_level a) \/
  (pressed_X i = false /\ Game.game_complete g = false /\
   Game.fell_off a = false /\
   Game.update sin i g =
     if Game.star_collected a then Game.with_game_complete true a else a).
Proof.
  intro a. unfold Game.update. fold a.
  destruct (pressed_X i); [left; auto |].
  destruct (Game.game_complete g); [right; left; auto |].
  destruct (Game.fell_off a) eqn:Hf.
  - right; right; left. rewrite restart_level_star_collected. auto.
  - right; right; right. auto.
Qed.

Lemma score_invariant (sin : Q -> Q) (inputs : list Input) :
  Game.score (Game.run sin inputs Game.init) =
  (10 * Game.collected_count (Game.collectibles (Game.run sin inputs Game.init)))%Z.
Proof.
  induction inputs as [| i inputs IH] using rev_ind; [reflexivity |].
  rewrite run_snoc.
  set (g := Game.run sin inputs Game.init) in *.
  destruct (update_cases sin i g) as [[_ E] | [[_ [_ E]] | [[_ [_ [_ E]]] | [_ [_ [_ E]]]]]];
    rewrite E; clear E.
  - now rewrite restart_level_count.
  - exact IH.
  - now rewrite restart_level_count.
  - assert (H : Game.score (Game.advance sin i g) =
                (10 * Game.collected_count (Game.collectibles (Game.advance sin i g)))%Z).
    { rewrite advance_eq. cbn [Game.score Game.collectibles].
      destruct (update_collectibles_score sin
                  (Player.update i (Game.platforms g) (Game.player g))
                  (Game.collectibles g) (Game.score g)) as [_ H2].
      rewrite H2, IH. lia. }
    destruct (Game.star_collected _); exact H.
Qed.

(** C4.  At every tick boundary the score is 10 times the number of
    collectibles whose flag is set.  On a tick that does not call
    restart_level the score does not decrease: it grows by 10 for each flag
    that the tick sets, and a flag that was set stays set and adds nothing. *)
Theorem score_counts_pickups :
  forall (sin : Q -> Q) (inputs : list Input),
    let g := Game.run sin inputs Game.init in
    Game.score g = (10 * Game.collected_count (Game.collectibles g))%Z /\
    forall i : Input,
      Game.restart_tick sin i g = false ->
      let g' := Game.update sin i g in
      (Game.score g <= Game.score g')%Z /\
      Game.score g' =
        (Game.score g +
         10 * Game.newly_collected (Game.collectibles g) (Game.collectibles g'))%Z /\
      forall (k : nat) (c : Collectible.t),
        nth_error (Game.collectibles g) k = Some c ->
        Collectible.collected c = true ->
        exists c', nth_error (Game.collectibles g') k = Some c' /\
                   Collectible.collected c' = true.
Proof.
  intros sin inputs g. split; [apply score_invariant |].
  intros i Hr g'. unfold Game.restart_tick in Hr.
  apply orb_false_iff in Hr. destruct Hr as [Hx Hr].
  assert (E : g' = g \/
              (Game.score g' = Game.score (Game.advance sin i g) /\
               Game.collectibles g' = Game.collectibles (Game.advance sin i g))).
  { unfold g'.
    destruct (update_cases sin i g) as [[F _] | [[_ [_ E]] | [[_ [Hc [Hf _]]] | [_ [_ [_ E]]]]]].
    - congruence.
    - now left.
    - rewrite Hc, Hf in Hr. discriminate.
    - right. rewrite E. destruct (Game.star_collected _); auto. }
  destruct E as [E | [E1 E2]].
  - rewrite E, newly_collected_same. repeat split; try lia.
    intros k c Hk Hc. now exists c.
  - rewrite E1, E2, advance_eq. cbn [Game.score Game.collectibles].
    pose proof (newly_collected_nonneg (Game.collectibles g)
                  (map (visited sin (Player.update i (Game.platforms g) (Game.player g)))
                       (Game.collectibles g))) as Hn.
    repeat split; try lia.
    intros k c Hk Hc.
    exists (visited sin (Player.update i (Game.platforms g) (Game.player g)) c).
    split; [now rewrite nth_error_map, Hk |].
    now rewrite visited_collected, Hc.
Qed.

Lemma score_counts_pickups_witness :
  Game.restart_tick flat R (Game.run flat approach Game.init) = false /\
  Game.score (Game.update flat R (Game.run flat approach Game.init)) = 20%Z /\
  Game.score (Game.update flat R (Game.run flat approach Game.init)) =
    (Game.score (Game.run flat approach Game.init) +
     10 * Game.newly_collected
            (Game.collectibles (Game.run flat approach Game.init))
            (Game.collectibles (Game.update flat R (Game.run flat approach Game.init))))%Z.
Proof.
  assert (Hr : Game.restart_tick flat R (Game.run flat approach Game.init) = false)
    by (vm_compute; reflexivity).
  split; [exact Hr |].
  split; [vm_compute; reflexivity |].
  exact (proj1 (proj2 (proj2 (score_counts_pickups flat approach) R Hr))).
Defined.

(** ** Winning *)

Lemma star_shaped_shape (c : Collectible.t) :
  Collectible.star_shaped c = shape_is_star (collectible_shape c).
Proof. reflexivity. Qed.

Lemma star_count_shape (cs : list Collectible.t) :
  length (filter Collectible.star_shaped cs) =
  length (filter shape_is_star (map collectible_shape cs)).
Proof.
  induction cs as [| c cs IH]; [reflexivity |].
  simpl. rewrite <- star_shaped_shape.
  destruct (Collectible.star_shaped c); simpl; now rewrite IH.
Qed.

Lemma run_collectible_shapes (sin : Q -> Q) (inputs : list Input) :
  map collectible_shape (Game.collectibles (Game.run sin inputs Game.init)) =
  map collectible_shape (Game.collectibles Game.init).
Proof.
  exact (f_equal (fun l => snd (fst l)) (run_layout sin inputs)).
Qed.

Lemma run_star (sin : Q -> Q) (inputs : list Input) :
  Game.star (Game.run sin inputs Game.init) = 7%nat.
Proof.
  exact (f_equal (fun l => snd l) (run_layout sin inputs)).
Qed.

(** [self.star] always names an object of the list, and that object
    carries the star attribute. *)
Lemma run_star_object (sin : Q -> Q) (inputs : list Input) :
  exists c,
    Game.star_object (Game.run sin inputs Game.init) = Some c /\
    Collectible.star_shaped c = true.
Proof.
  unfold Game.star_object. rewrite run_star.
  pose proof (f_equal (fun l => nth_error l 7) (run_collectible_shapes sin inputs)) as H.
  cbv beta in H. rewrite nth_error_map in H.
  destruct (nth_error _ 7) as [c |]; [| discriminate].
  exists c. split; [reflexivity |].
  rewrite star_shaped_shape.
  exact (f_equal (fun o => match o with
                           | Some s => shape_is_star s
                           | None => false
                           end) H).
Qed.

Lemma with_game_complete_star_collected (b : bool) (g : Game.t) :
  Game.star_collected (Game.with_game_complete b g) = Game.star_collected g.
Proof. reflexivity. Qed.

Lemma complete_invariant (sin : Q -> Q) (inputs : list Input) :
  Game.game_complete (Game.run sin inputs Game.init) =
  Game.star_collected (Game.run sin inputs Game.init).
Proof.
  induction inputs as [| i inputs IH] using rev_ind; [reflexivity |].
  rewrite run_snoc.
  set (g := Game.run sin inputs Game.init) in *.
  destruct (update_cases sin i g) as [[_ E] | [[_ [_ E]] | [[_ [_ [_ E]]] | [_ [Hc [_ E]]]]]];
    rewrite E; clear E.
  - now rewrite restart_level_star_collected.
  - exact IH.
  - now rewrite restart_level_star_collected.
  - destruct (Game.star_collected (Game.advance sin i g)) eqn:Hs.
    + now rewrite with_game_complete_star_collected, Hs.
    + rewrite Hs, advance_eq. exact Hc.
Qed.

(** C1.  At every tick boundary game_complete equals the star's collected
    flag; exactly one collectible carries the star attribute and it is the
    one [self.star] names; and a tick turns game_complete from false to
    true only if X was not pressed and the updated player's rectangle
    overlapped the star's rectangle at its freshly bobbed height. *)
Theorem complete_iff_star_collected :
  forall (sin : Q -> Q) (inputs : list Input),
    let g := Game.run sin inputs Game.init in
    Game.game_complete g = Game.star_collected g /\
    length (filter Collectible.star_shaped (Game.collectibles g)) = 1%nat /\
    (exists c, Game.star_object g = Some c /\ Collectible.star_shaped c = true) /\
    forall i : Input,
      Game.game_complete g = false ->
      Game.game_complete (Game.update sin i g) = true ->
      pressed_X i = false /\
      exists c,
        Game.star_object g = Some c /\
        Collectible.collected c = false /\
        Player.rect_collision
          (Player.rect (Player.update i (Game.platforms g) (Game.player g)))
          (Collectible.get_rect (Collectible.update sin c)) = true.
Proof.
  intros sin inputs g.
  split; [apply complete_invariant |].
  split; [unfold g; rewrite star_count_shape, run_collectible_shapes; reflexivity |].
  split; [apply run_star_object |].
  intros i Hg Hg'.
  pose proof (complete_invariant sin inputs) as Hinv. fold g in Hinv.
  destruct (update_cases sin i g) as [[_ E] | [[_ [Hc _]] | [[_ [_ [_ E]]] | [Hx [_ [_ E]]]]]].
  - rewrite E in Hg'. discriminate.
  - congruence.
  - rewrite E in Hg'. discriminate.
  - split; [exact Hx |].
    destruct (Game.star_collected (Game.advance sin i g)) eqn:Hs.
    + rewrite advance_eq in Hs.
      unfold Game.star_collected, Game.star_object in Hs, Hinv |- *.
      cbn [Game.collectibles Game.star] in Hs.
      rewrite nth_error_map in Hs.
      destruct (nth_error (Game.collectibles g) (Game.star g)) as [c |];
        [| discriminate].
      cbn [option_map] in Hs.
      exists c. rewrite Hg in Hinv. split; [reflexivity |].
      split; [now symmetry |].
      rewrite visited_collected, <- Hinv in Hs. exact Hs.
    + rewrite E, advance_eq in Hg'. simpl in Hg'. congruence.
Qed.

Lemma complete_iff_star_collected_witness :
  Game.game_complete (Game.run flat approach Game.init) = false /\
  Game.game_complete (Game.update flat R (Game.run flat approach Game.init)) = true /\
  exists c,
    Game.star_object (Game.run flat approach Game.init) = Some c /\
    Collectible.collected c = false /\
    Player.rect_collision
      (Player.rect
         (Player.update R (Game.platforms (Game.run flat approach Game.init))
            (Game.player (Game.run flat approach Game.init))))
      (Collectible.get_rect (Collectible.update flat c)) = true.
Proof.
  assert (H0 : Game.game_complete (Game.run flat approach Game.init) = false)
    by (vm_compute; reflexivity).
  assert (H1 : Game.game_complete
                 (Game.update flat R (Game.run flat approach Game.init)) = true)
    by (vm_compute; reflexivity).
  split; [exact H0 |].
  split; [exact H1 |].
  exact (proj2 (proj2 (proj2 (proj2 (complete_iff_star_collected flat approach)))
                  R H0 H1)).
Defined.

(** ** Landing on a platform *)

Lemma lands_on_iff (p : Player.t) (q : Platform.t) :
  lands_on p q = true <->
  (Player.x p < Platform.x q + Platform.width q /\
   Player.x p + Player.width p > Platform.x q /\
   Player.y p < Platform.y q + Platform.height q /\
   Player.y p + Player.height p > Platform.y q) /\
  Player.y p < Platform.y q.
Proof.
  unfold lands_on, Player.rect, Platform.get_rect.
  now rewrite andb_true_iff, rect_collision_iff, Qlt_bool_iff.
Qed.

(** A player whose vertical velocity is 0 is left alone by the loop. *)
Lemma collide_at_rest (r : Rect) (p : Player.t) (q : Platform.t) :
  Player.vel_y p = 0 -> Player.collide r p q = p.
Proof.
  intro H. unfold Player.collide. rewrite H.
  change (Qgt_bool 0 0) with false. change (Qlt_bool 0 0) with false.
  destruct (Player.rect_collision _ _); reflexivity.
Qed.

Lemma fold_collide_at_rest (r : Rect) (ps : list Platform.t) :
  forall p, Player.vel_y p = 0 -> fold_left (Player.collide r) ps p = p.
Proof.
  induction ps as [| q ps IH]; intros p H; simpl; [reflexivity |].
  rewrite collide_at_rest by exact H. now apply IH.
Qed.

(** While the player is falling, the loop puts it on the first platform
    it can land on; when all the platforms it can land on have their tops at
    one height, that is where it ends. *)
Lemma fold_collide_landing (p : Player.t) (q : Platform.t) :
  Player.vel_y p > 0 ->
  lands_on p q = true ->
  forall ps : list Platform.t,
    In q ps ->
    (forall q', In q' ps -> lands_on p q' = true -> Platform.y q' = Platform.y q) ->
    fold_left (Player.collide (Player.rect p)) ps (Player.with_on_ground false p) =
    landed (Platform.y q) p.
Proof.
  intros Hv Hq. induction ps as [| q' ps IH]; intros Hin Hsame; [destruct Hin |].
  simpl fold_left.
  destruct (lands_on p q') eqn:Hl.
  - assert (E : Player.collide (Player.rect p) (Player.with_on_ground false p) q' =
                landed (Platform.y q') p).
    { unfold lands_on in Hl. apply andb_true_iff in Hl. destruct Hl as [Hr Hy].
      unfold Player.collide. rewrite Hr.
      cbn [Player.vel_y Player.y Player.with_on_ground].
      apply Qgt_bool_iff in Hv. rewrite Hv, Hy. reflexivity. }
    rewrite E, fold_collide_at_rest by reflexivity.
    now rewrite (Hsame q' (or_introl eq_refl) Hl).
  - assert (E : Player.collide (Player.rect p) (Player.with_on_ground false p) q' =
                Player.with_on_ground false p).
    { unfold lands_on in Hl. unfold Player.collide.
      cbn [Player.vel_y Player.y Player.with_on_ground].
      apply Qgt_bool_iff in Hv. rewrite Hv.
      destruct (Player.rect_collision _ _); [| reflexivity].
      simpl in Hl. now rewrite Hl. }
    rewrite E. apply IH.
    + destruct Hin as [-> | Hin]; [congruence | exact Hin].
    + intros q'' Hin'. apply Hsame. now right.
Qed.

(** On the level of the game an 8 by 8 player can only land on platforms
    whose tops are at one height. *)
Lemma level_landing_tops (p : Player.t) (q q' : Platform.t) :
  Player.width p = 8 ->
  Player.height p = 8 ->
  In q Game.level_platforms ->
  In q' Game.level_platforms ->
  lands_on p q = true ->
  lands_on p q' = true ->
  Platform.y q' = Platform.y q.
Proof.
  intros Hw Hh Hq Hq' Hl Hl'.
  apply lands_on_iff in Hl, Hl'. rewrite Hw, Hh in Hl, Hl'.
  destruct Hl as [[_ [_ [_ H1]]] H2]. destruct Hl' as [[_ [_ [_ H3]]] H4].
  unfold Game.level_platforms in Hq, Hq'. simpl In in Hq, Hq'.
  repeat (destruct Hq as [<- | Hq]; [| ]); try contradiction;
    repeat (destruct Hq' as [<- | Hq']; [| ]); try contradiction;
    cbn [Platform.y] in *; first [reflexivity | exfalso; lra].
Qed.

Lemma level_platform_top (q : Platform.t) :
  In q Game.level_platforms -> Platform.y q <= 110.
Proof.
  unfold Game.level_platforms. simpl In. intro Hq.
  repeat (destruct Hq as [<- | Hq]; [cbn [Platform.y]; lra |]). contradiction.
Qed.

Lemma keep_on_screen_vertical (p : Player.t) :
  Player.y (Player.keep_on_screen p) = Player.y p /\
  Player.vel_y (Player.keep_on_screen p) = Player.vel_y p.
Proof.
  unfold Player.keep_on_screen.
  repeat match goal with |- context [if ?b then _ else _] => destruct b end;
    split; reflexivity.
Qed.

Lemma player_update_landing (i : Input) (p : Player.t) (platform : Platform.t) :
  Player.width p = 8 ->
  Player.height p = 8 ->
  In platform Game.level_platforms ->
  Player.vel_y (Player.before_collisions i p) > 0 ->
  Player.rect_collision (Player.rect (Player.before_collisions i p))
                        (Platform.get_rect platform) = true ->
  Player.y (Player.before_collisions i p) < Platform.y platform ->
  Player.vel_y (Player.update i Game.level_platforms p) = 0 /\
  Player.on_ground (Player.update i Game.level_platforms p) = true /\
  Player.y (Player.update i Game.level_platforms p) =
    Platform.y platform - Player.height p.
Proof.
  intros Hw Hh Hin Hv Hr Hy.
  assert (Hw' : Player.width (Player.before_collisions i p) = 8)
    by (rewrite <- Hw;
        exact (f_equal (fun s => fst (fst (fst s))) (before_collisions_shape i p))).
  assert (Hh' : Player.height (Player.before_collisions i p) = Player.height p)
    by exact (f_equal (fun s => snd (fst (fst s))) (before_collisions_shape i p)).
  assert (Hl : lands_on (Player.before_collisions i p) platform = true).
  { unfold lands_on. rewrite Hr. now apply Qlt_bool_iff. }
  assert (E : Player.handle_collisions Game.level_platforms (Player.before_collisions i p)
              = landed (Platform.y platform) (Player.before_collisions i p)).
  { unfold Player.handle_collisions.
    apply fold_collide_landing; [exact Hv | exact Hl | exact Hin |].
    intros q' Hin' Hl'.
    apply (level_landing_tops (Player.before_collisions i p)); auto; congruence. }
  unfold Player.update. rewrite keep_on_screen_on_ground.
  destruct (keep_on_screen_vertical
              (Player.handle_collisions Game.level_platforms
                 (Player.before_collisions i p))) as [Ky Kv].
  rewrite Ky, Kv, E. cbn [landed Player.vel_y Player.y Player.on_ground
                           Player.with_on_ground Player.with_vel_y Player.with_y].
  now rewrite Hh'.
Qed.

(** ** Falling off the bottom *)

Lemma fold_collide_no_overlap (r : Rect) (ps : list Platform.t) :
  (forall q, In q ps -> Player.rect_collision r (Platform.get_rect q) = false) ->
  forall p, fold_left (Player.collide r) ps p = p.
Proof.
  induction ps as [| q ps IH]; intros H p; simpl; [reflexivity |].
  unfold Player.collide at 2. rewrite (H q (or_introl eq_refl)).
  apply IH. intros q' Hq'. apply H. now right.
Qed.

Lemma level_platform_bottom (q : Platform.t) :
  In q Game.level_platforms -> Platform.y q + Platform.height q <= 120.
Proof.
  unfold Game.level_platforms. simpl In. intro Hq.
  repeat (destruct Hq as [<- | Hq]; [cbn [Platform.y Platform.height]; lra |]).
  contradiction.
Qed.

(** Below the lowest platform nothing of the level is touched. *)
Lemma handle_collisions_below_level (p : Player.t) :
  120 <= Player.y p ->
  Player.handle_collisions Game.level_platforms p = Player.with_on_ground false p.
Proof.
  intro Hy. unfold Player.handle_collisions.
  apply fold_collide_no_overlap. intros q Hq.
  pose proof (level_platform_bottom q Hq) as Hb.
  unfold Player.rect, Platform.get_rect, Player.rect_collision.
  assert (E : Qlt_bool (Player.y p) (Platform.y q + Platform.height q) = false)
    by (apply Qlt_bool_nlt; lra).
  rewrite E. now rewrite andb_false_r.
Qed.

Lemma before_collisions_y (i : Input) (p : Player.t) :
  Player.y (Player.before_collisions i p) =
  Player.y p + Player.vel_y (Player.before_collisions i p).
Proof.
  unfold Player.before_collisions, Player.jump, Player.handle_input.
  destruct p as [? ? ? ? ? ? g ? ?].
  destruct (button_LEFT i), (button_RIGHT i), (pressed_A i), g; reflexivity.
Qed.

(** The statement of C6 fails when the player is moving up: dropped to
    y = SCREEN_HEIGHT + 21 while rising at 7 per tick, it is at 134.5 after
    its update, the test fails and nothing is reset. *)
Lemma dropped_while_rising_is_not_reset :
  Game.game_complete (dropped rising) = false /\
  Player.y (Game.player (dropped rising)) = SCREEN_HEIGHT + 21 /\
  pressed_X N = false /\
  Player.y (Game.player (Game.update flat N (dropped rising))) == 269 # 2 /\
  ~ Player.y (Game.player (Game.update flat N (dropped rising)))
    == Player.start_y (Game.player (dropped rising)) /\
  ~ Player.vel_y (Game.player (Game.update flat N (dropped rising))) == 0 /\
  Game.score (Game.update flat N (dropped rising)) = 10%Z /\
  Game.collected_count (Game.collectibles (Game.update flat N (dropped rising))) = 1%Z.
Proof.
  repeat split; try (vm_compute; reflexivity); vm_compute; discriminate.
Qed.

(** ** The enemy's patrol *)

Lemma Qle_bool_nle (a b : Q) : Qle_bool a b = false <-> b < a.
Proof.
  split; intro H.
  - apply Qnot_le_lt. intro F. apply Qle_bool_iff in F. congruence.
  - destruct (Qle_bool a b) eqn:E; [| reflexivity].
    apply Qle_bool_iff in E. lra.
Qed.

Lemma enemy_update_frame (e : Enemy.t) :
  Enemy.start_x (Enemy.update e) = Enemy.start_x e /\
  Enemy.y (Enemy.update e) = Enemy.y e /\
  Enemy.width (Enemy.update e) = Enemy.width e /\
  Enemy.height (Enemy.update e) = Enemy.height e /\
  Enemy.move_range (Enemy.update e) = Enemy.move_range e /\
  Enemy.speed (Enemy.update e) = Enemy.speed e /\
  Enemy.x (Enemy.update e) = Enemy.x e + Enemy.speed e * Enemy.direction e.
Proof.
  unfold Enemy.update.
  repeat match goal with |- context [if ?b then _ else _] => destruct b end;
    repeat split.
Qed.

Lemma enemy_update_on_patrol (e : Enemy.t) :
  0 <= Enemy.speed e ->
  0 <= Enemy.move_range e ->
  on_patrol e ->
  on_patrol (Enemy.update e).
Proof.
  intros Hs Hr [Hlo [Hhi Hd]].
  destruct (enemy_update_frame e) as [F1 [_ [_ [_ [F2 [F3 F4]]]]]].
  unfold on_patrol. rewrite F1, F2, F3, F4. clear F1 F2 F3 F4.
  unfold Enemy.update. cbn [Enemy.x Enemy.start_x Enemy.move_range].
  destruct (Qle_bool (Enemy.x e + Enemy.speed e * Enemy.direction e)
                     (Enemy.start_x e)) eqn:E1.
  - apply Qle_bool_iff in E1. cbn [Enemy.direction Enemy.with_direction].
    destruct Hd as [[Hd _] | [Hd Hx]]; rewrite Hd in *;
      (split; [lra | split; [lra | left; split; [reflexivity | left; lra]]]).
  - apply Qle_bool_nle in E1.
    destruct (Qle_bool (Enemy.start_x e + Enemy.move_range e)
                       (Enemy.x e + Enemy.speed e * Enemy.direction e)) eqn:E2.
    + apply Qle_bool_iff in E2. cbn [Enemy.direction Enemy.with_direction].
      destruct Hd as [[Hd Hx] | [Hd Hx]]; rewrite Hd in *;
        (split; [lra | split; [lra | right; split; [reflexivity | lra]]]).
    + apply Qle_bool_nle in E2. cbn [Enemy.direction].
      destruct Hd as [[Hd Hx] | [Hd Hx]]; rewrite Hd in *.
      * split; [lra | split; [lra | left; split; [reflexivity | right; lra]]].
      * split; [lra | split; [lra | right; split; [reflexivity | lra]]].
Qed.

Lemma enemy_run_succ (n : nat) (e : Enemy.t) :
  enemy_run (S n) e = Enemy.update (enemy_run n e).
Proof. reflexivity. Qed.

(** X1.  An enemy built with a non-negative speed and range and updated
    any number of times stays within one step of its patrol range
    [start_x, start_x + move_range], faces left or right, and keeps its
    start, height, size, range and speed. *)
Theorem enemy_stays_on_patrol :
  forall (x0 y0 range0 speed0 : Q) (n : nat),
    0 <= speed0 ->
    0 <= range0 ->
    let e := enemy_run n (Enemy.init x0 y0 range0 speed0) in
    x0 - speed0 <= Enemy.x e <= x0 + range0 + speed0 /\
    (Enemy.direction e = 1 \/ Enemy.direction e = - 1) /\
    Enemy.start_x e = x0 /\ Enemy.y e = y0 /\
    Enemy.width e = 8 /\ Enemy.height e = 8 /\
    Enemy.move_range e = range0 /\ Enemy.speed e = speed0.
Proof.
  intros x0 y0 range0 speed0 n Hs Hr.
  assert (H : on_patrol (enemy_run n (Enemy.init x0 y0 range0 speed0)) /\
              Enemy.start_x (enemy_run n (Enemy.init x0 y0 range0 speed0)) = x0 /\
              Enemy.y (enemy_run n (Enemy.init x0 y0 range0 speed0)) = y0 /\
              Enemy.width (enemy_run n (Enemy.init x0 y0 range0 speed0)) = 8 /\
              Enemy.height (enemy_run n (Enemy.init x0 y0 range0 speed0)) = 8 /\
              Enemy.move_range (enemy_run n (Enemy.init x0 y0 range0 speed0)) = range0 /\
              Enemy.speed (enemy_run n (Enemy.init x0 y0 range0 speed0)) = speed0).
  { induction n as [| n IH].
    - repeat split; cbn; try lra. left. split; [reflexivity | left; lra].
    - destruct IH as [Hp [I1 [I2 [I3 [I4 [I5 I6]]]]]].
      rewrite enemy_run_succ.
      destruct (enemy_update_frame (enemy_run n (Enemy.init x0 y0 range0 speed0)))
        as [F1 [F2 [F3 [F4 [F5 [F6 _]]]]]].
      split; [apply enemy_update_on_patrol; [rewrite I6 | rewrite I5 |]; assumption |].
      repeat split; congruence. }
  destruct H as [[Hlo [Hhi Hd]] [I1 [I2 [I3 [I4 [I5 I6]]]]]].
  rewrite I1, I5, I6 in *.
  repeat split; try assumption.
  destruct Hd as [[Hd _] | [Hd _]]; [left | right]; exact Hd.
Qed.

Lemma enemy_stays_on_patrol_witness :
  10 - 3 <= Enemy.x (enemy_run 7 (Enemy.init 10 50 8 3)) <= 10 + 8 + 3 /\
  Enemy.direction (enemy_run 3 (Enemy.init 10 50 8 3)) = - 1.
Proof.
  split.
  - apply (enemy_stays_on_patrol 10 50 8 3 7); vm_compute; discriminate.
  - reflexivity.
Defined.

(** ** Collision resolution as a whole *)

Lemma fold_collide_still (r : Rect) (ps : list Platform.t) :
  forall p,
    Qgt_bool (Player.vel_y p) 0 = false ->
    Qlt_bool (Player.vel_y p) 0 = false ->
    fold_left (Player.collide r) ps p = p.
Proof.
  induction ps as [| q ps IH]; intros p H1 H2; simpl; [reflexivity |].
  assert (E : Player.collide r p q = p).
  { unfold Player.collide. rewrite H1, H2.
    destruct (Player.rect_collision _ _); reflexivity. }
  rewrite E. now apply IH.
Qed.

Lemma fold_collide_falling (p : Player.t) :
  Qgt_bool (Player.vel_y p) 0 = true ->
  forall ps : list Platform.t,
    fold_left (Player.collide (Player.rect p)) ps (Player.with_on_ground false p) =
    match find (lands_on p) ps with
    | Some q => landed (Platform.y q) p
    | None => Player.with_on_ground false p
    end.
Proof.
  intros Hv. induction ps as [| q ps IH]; [reflexivity |].
  simpl fold_left. simpl find. unfold lands_on at 1.
  unfold Player.collide at 2. cbn [Player.vel_y Player.y Player.with_on_ground].
  rewrite Hv.
  destruct (Player.rect_collision (Player.rect p) (Platform.get_rect q)); [| exact IH].
  destruct (Qlt_bool (Player.y p) (Platform.y q)); [| exact IH].
  cbn [andb]. now apply fold_collide_at_rest.
Qed.

Lemma fold_collide_rising (p : Player.t) :
  Qgt_bool (Player.vel_y p) 0 = false ->
  Qlt_bool (Player.vel_y p) 0 = true ->
  forall ps : list Platform.t,
    fold_left (Player.collide (Player.rect p)) ps (Player.with_on_ground false p) =
    match find (bumps_under p) ps with
    | Some q => bumped q (Player.with_on_ground false p)
    | None => Player.with_on_ground false p
    end.
Proof.
  intros Hv Hv'. induction ps as [| q ps IH]; [reflexivity |].
  simpl fold_left. simpl find. unfold bumps_under at 1.
  unfold Player.collide at 2. cbn [Player.vel_y Player.y Player.with_on_ground].
  rewrite Hv, Hv'.
  destruct (Player.rect_collision (Player.rect p) (Platform.get_rect q)); [| exact IH].
  destruct (Qgt_bool (Player.y p) (Platform.y q)); [| exact IH].
  cbn [andb]. now apply fold_collide_at_rest.
Qed.

Lemma handle_collisions_search (ps : list Platform.t) (p : Player.t) :
  Player.handle_collisions ps p = first_response ps p.
Proof.
  unfold Player.handle_collisions, first_response.
  destruct (Qgt_bool (Player.vel_y p) 0) eqn:H1.
  - now apply fold_collide_falling.
  - destruct (Qlt_bool (Player.vel_y p) 0) eqn:H2.
    + now apply fold_collide_rising.
    + now apply fold_collide_still.
Qed.

(** X3.  [handle_collisions] answers to one platform at most, the first
    of the list that qualifies: a falling player is put on the first
    platform it overlaps with its top above the platform's top, a rising
    player under the first platform it overlaps with its top below the
    platform's top, and every other platform is ignored; a player with no
    vertical velocity only has on_ground cleared. *)
Theorem handle_collisions_first_response :
  forall (platforms : list Platform.t) (p : Player.t),
    Player.handle_collisions platforms p = first_response platforms p.
Proof. exact handle_collisions_search. Qed.

Lemma find_none_existsb {A : Type} (f : A -> bool) (l : list A) :
  find f l = None -> existsb f l = false.
Proof.
  induction l as [| a l IH]; simpl; [reflexivity |].
  destruct (f a); [discriminate | exact IH].
Qed.

Lemma find_some_existsb {A : Type} (f : A -> bool) (l : list A) (a : A) :
  find f l = Some a -> existsb f l = true.
Proof.
  intro H. apply find_some in H. apply existsb_exists. now exists a.
Qed.

Lemma handle_collisions_on_ground (ps : list Platform.t) (p : Player.t) :
  Player.on_ground (Player.handle_collisions ps p) =
  Qgt_bool (Player.vel_y p) 0 && existsb (lands_on p) ps.
Proof.
  unfold Player.handle_collisions.
  destruct (Qgt_bool (Player.vel_y p) 0) eqn:H1.
  - rewrite fold_collide_falling by exact H1.
    destruct (find (lands_on p) ps) as [q |] eqn:E.
    + now rewrite (find_some_existsb _ _ _ E).
    + now rewrite (find_none_existsb _ _ E).
  - now apply collide_not_falling.
Qed.

(** X4.  on_ground is computed afresh on every tick: after [Player.update]
    it is set exactly when the player, as moved on this tick, is falling and
    overlaps some platform with its top above the platform's top; the value
    it had before only matters through the jump. *)
Theorem on_ground_iff_landing :
  forall (i : Input) (platforms : list Platform.t) (p : Player.t),
    Player.on_ground (Player.update i platforms p) =
    Qgt_bool (Player.vel_y (Player.before_collisions i p)) 0 &&
    existsb (lands_on (Player.before_collisions i p)) platforms.
Proof.
  intros i ps p. unfold Player.update.
  rewrite keep_on_screen_on_ground. apply handle_collisions_on_ground.
Qed.

(** X5.  Platforms never block horizontal movement: the horizontal
    position after [Player.update] is the one the player would have with no
    platform at all. *)
Theorem platforms_do_not_block_sideways :
  forall (i : Input) (platforms : list Platform.t) (p : Player.t),
    Player.x (Player.update i platforms p) = Player.x (Player.update i [] p) /\
    Player.vel_x (Player.update i platforms p) = input_vel_x i.
Proof.
  intros i ps p. split; [now rewrite !player_update_x |].
  unfold Player.update, Player.handle_collisions.
  assert (K : forall q, Player.vel_x (Player.keep_on_screen q) = Player.vel_x q).
  { intro q. unfold Player.keep_on_screen.
    repeat match goal with |- context [if ?b then _ else _] => destruct b end;
      reflexivity. }
  assert (F : forall l q, Player.vel_x
                (fold_left (Player.collide (Player.rect (Player.before_collisions i p))) l q)
              = Player.vel_x q).
  { induction l as [| a l IH]; intro q; simpl; [reflexivity |].
    rewrite IH. unfold Player.collide.
    repeat match goal with |- context [if ?b then _ else _] => destruct b end;
      reflexivity. }
  rewrite K, F. unfold Player.before_collisions, Player.jump, Player.handle_input, input_vel_x.
  destruct p as [? ? ? ? ? ? g ? ?].
  destruct (button_LEFT i), (button_RIGHT i), (pressed_A i), g; reflexivity.
Qed.

(** ** Hitting a platform from below *)

Lemma bumps_under_iff (p : Player.t) (q : Platform.t) :
  bumps_under p q = true <->
  (Player.x p < Platform.x q + Platform.width q /\
   Player.x p + Player.width p > Platform.x q /\
   Player.y p < Platform.y q + Platform.height q /\
   Player.y p + Player.height p > Platform.y q) /\
  Platform.y q < Player.y p.
Proof.
  unfold bumps_under, Player.rect, Platform.get_rect.
  now rewrite andb_true_iff, rect_collision_iff, Qgt_bool_iff.
Qed.

(** On the level of the game the platforms a player can bump under at
    one time have their undersides at one height. *)
Lemma level_bump_bottoms (p : Player.t) (q q' : Platform.t) :
  In q Game.level_platforms ->
  In q' Game.level_platforms ->
  bumps_under p q = true ->
  bumps_under p q' = true ->
  Platform.y q' + Platform.height q' = Platform.y q + Platform.height q.
Proof.
  intros Hq Hq' Hl Hl'.
  apply bumps_under_iff in Hl, Hl'.
  destruct Hl as [[_ [_ [H1 _]]] H2]. destruct Hl' as [[_ [_ [H3 _]]] H4].
  unfold Game.level_platforms in Hq, Hq'. simpl In in Hq, Hq'.
  repeat (destruct Hq as [<- | Hq]; [| ]); try contradiction;
    repeat (destruct Hq' as [<- | Hq']; [| ]); try contradiction;
    cbn [Platform.y Platform.height] in *; first [reflexivity | exfalso; lra].
Qed.

(** X6.  On the level of the game, a player that is rising when the
    collisions are resolved, whose moved rectangle overlaps a platform and
    whose top is below the platform's top, ends [Player.update] just under
    that platform (y = platform.y + platform.height) with vel_y = 0 and
    on_ground clear. *)
Theorem bumping_from_below :
  forall (i : Input) (p : Player.t) (platform : Platform.t),
    In platform Game.level_platforms ->
    Player.vel_y (Player.before_collisions i p) < 0 ->
    Player.rect_collision (Player.rect (Player.before_collisions i p))
                          (Platform.get_rect platform) = true ->
    Platform.y platform < Player.y (Player.before_collisions i p) ->
    Player.vel_y (Player.update i Game.level_platforms p) = 0 /\
    Player.on_ground (Player.update i Game.level_platforms p) = false /\
    Player.y (Player.update i Game.level_platforms p) =
      Platform.y platform + Platform.height platform.
Proof.
  intros i p platform Hin Hv Hr Hy. unfold Player.update.
  set (q := Player.before_collisions i p) in *.
  assert (Hb : bumps_under q platform = true)
    by (unfold bumps_under; rewrite Hr; now apply Qgt_bool_iff).
  assert (H1 : Qgt_bool (Player.vel_y q) 0 = false) by (apply Qgt_bool_ngt; lra).
  assert (H2 : Qlt_bool (Player.vel_y q) 0 = true) by (now apply Qlt_bool_iff).
  rewrite keep_on_screen_on_ground.
  destruct (keep_on_screen_vertical (Player.handle_collisions Game.level_platforms q))
    as [Ky Kv].
  rewrite Ky, Kv, handle_collisions_search.
  unfold first_response. rewrite H1, H2.
  destruct (find (bumps_under q) Game.level_platforms) as [q' |] eqn:E.
  - apply find_some in E. destruct E as [Hin' Hb'].
    repeat split. cbn [bumped Player.y Player.with_vel_y Player.with_y].
    now apply (level_bump_bottoms q).
  - pose proof (find_none _ _ E platform Hin). congruence.
Qed.

Lemma bumping_from_below_witness :
  Player.vel_y (Player.before_collisions N
                  (Game.player (Game.run flat (firstn 10 approach) Game.init))) < 0 /\
  Player.y (Game.player
              (Game.run flat (firstn 10 approach) Game.init)) == 61 /\
  Player.y (Player.update L Game.level_platforms
              (Game.player (Game.run flat (firstn 10 approach) Game.init))) =
    Platform.y (Platform.mk 10 50 25 8 WHITE) +
    Platform.height (Platform.mk 10 50 25 8 WHITE).
Proof.
  split; [vm_compute; reflexivity |].
  split; [vm_compute; reflexivity |].
  apply (bumping_from_below L
           (Game.player (Game.run flat (firstn 10 approach) Game.init))
           (Platform.mk 10 50 25 8 WHITE)).
  - vm_compute. do 6 right. left. reflexivity.
  - vm_compute. reflexivity.
  - vm_compute. reflexivity.
  - vm_compute. reflexivity.
Defined.

(** ** Walking on a platform *)

Lemma before_collisions_no_jump (i : Input) (p : Player.t) :
  pressed_A i = false ->
  Player.vel_y (Player.before_collisions i p) = Player.vel_y p + GRAVITY /\
  Player.y (Player.before_collisions i p) = Player.y p + (Player.vel_y p + GRAVITY) /\
  Player.width (Player.before_collisions i p) = Player.width p /\
  Player.height (Player.before_collisions i p) = Player.height p.
Proof.
  intro Ha.
  unfold Player.before_collisions, Player.jump, Player.handle_input.
  rewrite Ha. destruct p as [? ? ? ? ? ? g ? ?].
  destruct (button_LEFT i), (button_RIGHT i); repeat split.
Qed.

(** X7.  Standing and walking are stable on the level of the game: a
    player that rests on top of a platform (y = platform.y - 8, vel_y = 0),
    does not jump and whose horizontal move keeps it over the platform is
    again on top of it after the tick, with vel_y = 0 and on_ground set. *)
Theorem walking_keeps_the_player_on_its_platform :
  forall (i : Input) (p : Player.t) (platform : Platform.t),
    Player.width p = 8 ->
    Player.height p = 8 ->
    In platform Game.level_platforms ->
    pressed_A i = false ->
    Player.vel_y p == 0 ->
    Player.y p == Platform.y platform - 8 ->
    Player.x p + input_vel_x i < Platform.x platform + Platform.width platform ->
    Platform.x platform < Player.x p + input_vel_x i + 8 ->
    Player.vel_y (Player.update i Game.level_platforms p) = 0 /\
    Player.on_ground (Player.update i Game.level_platforms p) = true /\
    Player.y (Player.update i Game.level_platforms p) = Platform.y platform - 8.
Proof.
  intros i p platform Hw Hh Hin Ha Hv Hy Hx1 Hx2.
  destruct (before_collisions_no_jump i p Ha) as [Bv [By [Bw Bh]]].
  pose proof (before_collisions_x i p) as Bx.
  assert (Hheight : 8 <= Platform.height platform).
  { unfold Game.level_platforms in Hin. simpl In in Hin.
    repeat (destruct Hin as [<- | Hin]; [cbn [Platform.height]; lra |]).
    contradiction. }
  assert (C1 : Player.vel_y (Player.before_collisions i p) > 0)
    by (rewrite Bv, Hv; unfold GRAVITY; lra).
  assert (C2 : Player.rect_collision (Player.rect (Player.before_collisions i p))
                 (Platform.get_rect platform) = true).
  { unfold Player.rect, Platform.get_rect. apply rect_collision_iff.
    rewrite Bx, By, Bw, Bh, Hw, Hh, Hv, Hy. unfold GRAVITY. repeat split; lra. }
  assert (C3 : Player.y (Player.before_collisions i p) < Platform.y platform)
    by (rewrite By, Hv, Hy; unfold GRAVITY; lra).
  destruct (player_update_landing i p platform Hw Hh Hin C1 C2 C3) as [A [B C]].
  rewrite Hh in C. repeat split; assumption.
Qed.

Lemma walking_keeps_the_player_on_its_platform_witness :
  Player.y (Game.player (Game.run flat (repeat N 9) Game.init)) == 110 - 8 /\
  Player.on_ground
    (Player.update R Game.level_platforms
       (Game.player (Game.run flat (repeat N 9) Game.init))) = true /\
  Player.y
    (Player.update R Game.level_platforms
       (Game.player (Game.run flat (repeat N 9) Game.init))) =
    Platform.y (Platform.mk 0 110 40 10 GREEN) - 8.
Proof.
  split; [vm_compute; reflexivity |].
  apply (walking_keeps_the_player_on_its_platform R
           (Game.player (Game.run flat (repeat N 9) Game.init))
           (Platform.mk 0 110 40 10 GREEN));
    try (vm_compute; reflexivity).
  vm_compute. left. reflexivity.
Defined.

(** ** Reset *)

Lemma player_run_shape (ps : list Platform.t) :
  forall (inputs : list Input) (p : Player.t),
    player_shape (Player.run inputs ps p) = player_shape p.
Proof.
  induction inputs as [| i inputs IH]; intro p; [reflexivity |].
  change (Player.run (i :: inputs) ps p)
    with (Player.run inputs ps (Player.update i ps p)).
  now rewrite IH, player_update_shape.
Qed.

(** X8.  [reset] undoes everything [update] can do: whatever the inputs
    and the platforms, resetting a player that was built at (x, y) gives the
    player as it was built. *)
Theorem reset_restores_the_constructed_player :
  forall (x0 y0 : Q) (inputs : list Input) (platforms : list Platform.t),
    Player.reset (Player.run inputs platforms (Player.init x0 y0)) =
    Player.init x0 y0.
Proof.
  intros x0 y0 inputs ps.
  pose proof (player_run_shape ps inputs (Player.init x0 y0)) as H.
  unfold player_shape in H. cbn [Player.init Player.width Player.height
                                 Player.start_x Player.start_y] in H.
  injection H as Hw Hh Hsx Hsy.
  unfold Player.reset. now rewrite Hw, Hh, Hsx, Hsy.
Qed.

(** ** A jump in free space *)








(** ** The animation clock *)

Lemma run_cons (sin : Q -> Q) (i : Input) (inputs : list Input) (g : Game.t) :
  Game.run sin (i :: inputs) g = Game.run sin inputs (Game.update sin i g).
Proof. reflexivity. Qed.

Lemma in_phase_uncollect (sin : Q -> Q) (n : Z) (cs : list Collectible.t) :
  in_phase sin n cs ->
  in_phase sin n (map (Collectible.with_collected false) cs).
Proof.
  unfold in_phase. rewrite !Forall_forall. intros H c Hc.
  apply in_map_iff in Hc. destruct Hc as [c0 [<- Hc0]]. exact (H c0 Hc0).
Qed.

Lemma in_phase_visited (sin : Q -> Q) (p : Player.t) (n : Z) (cs : list Collectible.t) :
  (0 <= n)%Z ->
  in_phase sin n cs ->
  in_phase sin (n + 1) (map (visited sin p) cs).
Proof.
  unfold in_phase. rewrite !Forall_forall. intros Hn H c Hc.
  apply in_map_iff in Hc. destruct Hc as [c0 [<- Hc0]].
  destruct (H c0 Hc0) as [Ht _].
  assert (E : Collectible.tick_counter (visited sin p c0) = (n + 1)%Z /\
              Collectible.bob_offset (visited sin p c0) =
                sin (inject_Z (n + 1) * (1 # 10)) * 2).
  { rewrite <- Ht. unfold visited, Game.visit.
    repeat match goal with |- context [if ?b then _ else _] => destruct b end;
      split; reflexivity. }
  destruct E as [E1 E2]. split; [exact E1 |].
  rewrite E2. unfold bob_after.
  destruct (n + 1 =? 0)%Z eqn:F; [apply Z.eqb_eq in F; lia | reflexivity].
Qed.

Lemma update_in_phase (sin : Q -> Q) (i : Input) (g : Game.t) (n : Z) :
  (0 <= n)%Z ->
  in_phase sin n (Game.collectibles g) ->
  in_phase sin (n + (if pressed_X i || Game.game_complete g then 0 else 1))
           (Game.collectibles (Game.update sin i g)).
Proof.
  intros Hn H.
  destruct (update_cases sin i g)
    as [[Hx E] | [[Hx [Hc E]] | [[Hx [Hc [_ E]]] | [Hx [Hc [_ E]]]]]];
    rewrite E, Hx, ?Hc; cbn [orb].
  - rewrite Z.add_0_r. now apply in_phase_uncollect.
  - now rewrite Z.add_0_r.
  - rewrite advance_eq. apply in_phase_uncollect. now apply in_phase_visited.
  - assert (Ha : in_phase sin (n + 1) (Game.collectibles (Game.advance sin i g)))
      by (rewrite advance_eq; now apply in_phase_visited).
    destruct (Game.star_collected _); exact Ha.
Qed.

Lemma played_ticks_nonneg (sin : Q -> Q) (inputs : list Input) :
  forall g, (0 <= played_ticks sin inputs g)%Z.
Proof.
  induction inputs as [| i inputs IH]; intro g; simpl; [lia |].
  specialize (IH (Game.update sin i g)).
  destruct (pressed_X i || Game.game_complete g); lia.
Qed.

Lemma run_in_phase (sin : Q -> Q) (inputs : list Input) :
  forall (g : Game.t) (n : Z),
    (0 <= n)%Z ->
    in_phase sin n (Game.collectibles g) ->
    in_phase sin (n + played_ticks sin inputs g)
             (Game.collectibles (Game.run sin inputs g)).
Proof.
  induction inputs as [| i inputs IH]; intros g n Hn H.
  - simpl. now rewrite Z.add_0_r.
  - rewrite run_cons. cbn [played_ticks]. rewrite Z.add_assoc.
    apply IH; [destruct (pressed_X i || Game.game_complete g); lia |].
    now apply update_in_phase.
Qed.

Lemma run_clock (sin : Q -> Q) (inputs : list Input) (c : Collectible.t) :
  In c (Game.collectibles (Game.run sin inputs Game.init)) ->
  Collectible.tick_counter c = played_ticks sin inputs Game.init /\
  Collectible.bob_offset c = bob_after sin (played_ticks sin inputs Game.init).
Proof.
  intros Hc.
  assert (H0 : in_phase sin 0 (Game.collectibles Game.init))
    by (repeat constructor).
  pose proof (run_in_phase sin inputs Game.init 0%Z ltac:(lia) H0) as H.
  rewrite Z.add_0_l in H. unfold in_phase in H. rewrite Forall_forall in H.
  exact (H c Hc).
Qed.

(** X10.  The collectibles share one animation clock: at every tick
    boundary each collectible's tick_counter is the number of ticks played
    so far (ticks with X pressed and ticks spent in Complete do not count),
    and its bob_offset is sin(tick_counter * 0.1) * 2 (0 before the first
    update).  A restart does not set the clock back. *)
Theorem collectibles_share_one_clock :
  forall (sin : Q -> Q) (inputs : list Input) (c : Collectible.t),
    In c (Game.collectibles (Game.run sin inputs Game.init)) ->
    Collectible.tick_counter c = played_ticks sin inputs Game.init /\
    Collectible.bob_offset c = bob_after sin (played_ticks sin inputs Game.init).
Proof. exact run_clock. Qed.

Lemma collectibles_share_one_clock_witness :
  played_ticks flat (approach ++ [R; N; press_X; N]) Game.init = 35%Z /\
  Forall (fun c => Collectible.tick_counter c = 35%Z)
         (Game.collectibles (Game.run flat (approach ++ [R; N; press_X; N]) Game.init)).
Proof.
  split; [vm_compute; reflexivity |].
  apply Forall_forall. intros c Hc.
  destruct (collectibles_share_one_clock flat (approach ++ [R; N; press_X; N]) c Hc)
    as [H _].
  rewrite H. vm_compute. reflexivity.
Defined.

(** ** Score and height bounds *)

Lemma collected_count_bounds (cs : list Collectible.t) :
  (0 <= Game.collected_count cs <= Z.of_nat (length cs))%Z /\
  (Game.collected_count cs = Z.of_nat (length cs) ->
   forallb Collectible.collected cs = true).
Proof.
  induction cs as [| c cs [IH1 IH2]]; [split; [cbn; lia | reflexivity] |].
  rewrite collected_count_cons. cbn [length forallb].
  rewrite Nat2Z.inj_succ.
  destruct (Collectible.collected c); cbn [andb]; split; try lia.
  intro H. apply IH2. lia.
Qed.

Lemma forallb_collected_count (cs : list Collectible.t) :
  forallb Collectible.collected cs = true ->
  Game.collected_count cs = Z.of_nat (length cs).
Proof.
  induction cs as [| c cs IH]; [reflexivity |].
  cbn [forallb]. intro H. apply andb_true_iff in H. destruct H as [Hc H].
  rewrite collected_count_cons, Hc, (IH H). cbn [length]. lia.
Qed.

Lemma run_collectibles_length (sin : Q -> Q) (inputs : list Input) :
  length (Game.collectibles (Game.run sin inputs Game.init)) = 8%nat.
Proof.
  pose proof (f_equal (@length _) (run_collectible_shapes sin inputs)) as H.
  rewrite !length_map in H. exact H.
Qed.

(** When every collectible is collected the game is complete. *)
Lemma all_collected_complete (sin : Q -> Q) (inputs : list Input) :
  Game.all_collected (Game.run sin inputs Game.init) = true ->
  Game.game_complete (Game.run sin inputs Game.init) = true.
Proof.
  intro H. rewrite complete_invariant.
  destruct (run_star_object sin inputs) as [c [Hc _]].
  unfold Game.star_collected. rewrite Hc.
  unfold Game.all_collected in H. rewrite forallb_forall in H.
  apply H. unfold Game.star_object in Hc. now apply nth_error_In in Hc.
Qed.

(** X11.  At every tick boundary the score is between 0 and 80, and
    it is 80 exactly when all eight collectibles are collected, in which
    case the game is complete. *)
Theorem score_is_at_most_80 :
  forall (sin : Q -> Q) (inputs : list Input),
    let g := Game.run sin inputs Game.init in
    (0 <= Game.score g <= 80)%Z /\
    (Game.score g = 80%Z <-> Game.all_collected g = true) /\
    (Game.score g = 80%Z -> Game.game_complete g = true).
Proof.
  intros sin inputs g.
  pose proof (score_invariant sin inputs) as Hs. fold g in Hs.
  pose proof (run_collectibles_length sin inputs) as Hl. fold g in Hl.
  destruct (collected_count_bounds (Game.collectibles g)) as [Hb Hall].
  rewrite Hl in Hb, Hall.
  assert (Hiff : Game.score g = 80%Z <-> Game.all_collected g = true).
  { split; intro H.
    - apply Hall. lia.
    - apply forallb_collected_count in H. rewrite Hl in H. lia. }
  split; [lia |]. split; [exact Hiff |].
  intro H. apply all_collected_complete. now apply Hiff.
Qed.

(** X12.  The player is never seen below the fall-off line: at every
    tick boundary player.y <= SCREEN_HEIGHT + 20. *)
Theorem player_never_rests_below_the_screen :
  forall (sin : Q -> Q) (inputs : list Input),
    Player.y (Game.player (Game.run sin inputs Game.init)) <= SCREEN_HEIGHT + 20.
Proof.
  intros sin inputs.
  induction inputs as [| i inputs IH] using rev_ind;
    [change (80 <= 120 + 20); lra |].
  rewrite run_snoc.
  pose proof (run_player_shape sin inputs) as Hs.
  set (g := Game.run sin inputs Game.init) in *.
  assert (Hsy : Player.start_y (Game.player g) = 80)
    by exact (f_equal (fun s => snd s) Hs).
  assert (Hq : Player.start_y (Player.update i (Game.platforms g) (Game.player g)) = 80).
  { rewrite <- Hsy.
    exact (f_equal (fun s => snd s)
             (player_update_shape i (Game.platforms g) (Game.player g))). }
  destruct (update_cases sin i g)
    as [[_ E] | [[_ [_ E]] | [[_ [_ [_ E]]] | [_ [_ [Hf E]]]]]]; rewrite E.
  - cbn [Game.restart_level Game.player Player.reset Player.y]. rewrite Hsy.
    unfold SCREEN_HEIGHT. lra.
  - exact IH.
  - rewrite advance_eq.
    cbn [Game.restart_level Game.player Player.reset Player.y]. rewrite Hq.
    unfold SCREEN_HEIGHT. lra.
  - unfold Game.fell_off in Hf. apply Qgt_bool_ngt in Hf.
    destruct (Game.star_collected _); exact Hf.
Qed.


(** ** Picking up *)

(** X13.  A collectible is picked up only by overlap: if a tick sets the
    flag of the collectible at position [k], then X was not pressed, the
    game was not complete and the player, as updated on this tick,
    overlapped the collectible's rectangle at its new bob height.
    Conversely, on a played tick that does not end in a fall-off reset every
    uncollected collectible that the updated player overlaps is collected. *)
Theorem pickup_iff_overlap :
  forall (sin : Q -> Q) (i : Input) (g : Game.t) (k : nat) (c : Collectible.t),
    nth_error (Game.collectibles g) k = Some c ->
    Collectible.collected c = false ->
    (forall c',
        nth_error (Game.collectibles (Game.update sin i g)) k = Some c' ->
        Collectible.collected c' = true ->
        pressed_X i = false /\
        Game.game_complete g = false /\
        Player.rect_collision
          (Player.rect (Player.update i (Game.platforms g) (Game.player g)))
          (Collectible.get_rect (Collectible.update sin c)) = true) /\
    (pressed_X i = false ->
     Game.game_complete g = false ->
     Game.fell_off (Game.advance sin i g) = false ->
     exists c',
       nth_error (Game.collectibles (Game.update sin i g)) k = Some c' /\
       Collectible.collected c' =
         Player.rect_collision
           (Player.rect (Player.update i (Game.platforms g) (Game.player g)))
           (Collectible.get_rect (Collectible.update sin c))).
Proof.
  intros sin i g k c Hk Hc.
  assert (Ha : nth_error (Game.collectibles (Game.advance sin i g)) k =
               Some (visited sin (Player.update i (Game.platforms g) (Game.player g)) c))
    by (rewrite advance_eq; cbn [Game.collectibles]; now rewrite nth_error_map, Hk).
  assert (Hv := visited_collected sin
                  (Player.update i (Game.platforms g) (Game.player g)) c).
  rewrite Hc in Hv. cbn [orb] in Hv.
  assert (Hreset : forall g0 c',
             nth_error (Game.collectibles (Game.restart_level g0)) k = Some c' ->
             Collectible.collected c' = false).
  { intros g0 c' H. apply nth_error_In in H.
    pose proof (restart_level_collected g0) as HF.
    rewrite Forall_forall in HF. now apply HF. }
  split.
  - intros c' Hk' Hc'.
    destruct (update_cases sin i g)
      as [[_ E] | [[_ [_ E]] | [[_ [_ [_ E]]] | [Hx [Hg [_ E]]]]]];
      rewrite E in Hk'.
    + apply Hreset in Hk'. congruence.
    + congruence.
    + apply Hreset in Hk'. congruence.
    + assert (Hk'' : nth_error (Game.collectibles (Game.advance sin i g)) k = Some c')
        by (destruct (Game.star_collected _); exact Hk').
      rewrite Ha in Hk''. injection Hk'' as <-.
      repeat split; [exact Hx | exact Hg | now rewrite <- Hv].
  - intros Hx Hg Hf.
    exists (visited sin (Player.update i (Game.platforms g) (Game.player g)) c).
    split; [| exact Hv].
    destruct (update_cases sin i g)
      as [[F _] | [[_ [F _]] | [[_ [_ [F _]]] | [_ [_ [_ E]]]]]]; try congruence.
    rewrite E. destruct (Game.star_collected _); exact Ha.
Qed.

Lemma pickup_iff_overlap_witness :
  exists c,
    nth_error (Game.collectibles (Game.run flat approach Game.init)) 7 = Some c /\
    Collectible.collected c = false /\
    Player.rect_collision
      (Player.rect (Player.update R
         (Game.platforms (Game.run flat approach Game.init))
         (Game.player (Game.run flat approach Game.init))))
      (Collectible.get_rect (Collectible.update flat c)) = true.
Proof.
  destruct (nth_error (Game.collectibles (Game.run flat approach Game.init)) 7)
    as [c |] eqn:Hk; [| vm_compute in Hk; discriminate].
  assert (Hc : Collectible.collected c = false).
  { vm_compute in Hk. injection Hk as <-. reflexivity. }
  exists c. split; [reflexivity |]. split; [exact Hc |].
  destruct (pickup_iff_overlap flat R (Game.run flat approach Game.init) 7 c Hk Hc)
    as [H _].
  destruct (nth_error (Game.collectibles
              (Game.update flat R (Game.run flat approach Game.init))) 7)
    as [c' |] eqn:Hk'; [| vm_compute in Hk'; discriminate].
  apply (H c' eq_refl).
  vm_compute in Hk'. injection Hk' as <-. reflexivity.
Defined.

(** ** Winning the level *)

Lemma complete_freezes_game_step (sin : Q -> Q) (i : Input) (g : Game.t) :
  Game.game_complete g = true -> pressed_X i = false -> Game.update sin i g = g.
Proof.
  intros Hc Hx. unfold Game.update. now rewrite Hx, Hc.
Qed.

Lemma complete_run_stays (sin : Q -> Q) (inputs : list Input) :
  forall g,
    Game.game_complete g = true ->
    Forall (fun i => pressed_X i = false) inputs ->
    Game.run sin inputs g = g.
Proof.
  induction inputs as [| i inputs IH]; intros g Hc Hx; [reflexivity |].
  inversion Hx as [| ? ? Hi Hrest]; subst.
  rewrite run_cons, (complete_freezes_game_step sin i g Hc Hi). now apply IH.
Qed.

(** Until the game is won, a run without X and without a fall moves the
    player as [Player.update] alone would: the collectibles and their
    animation have no influence on it. *)
Lemma run_player_or_complete (sin : Q -> Q) (inputs : list Input) :
  forall g,
    Forall (fun i => pressed_X i = false) inputs ->
    never_falls inputs (Game.platforms g) (Game.player g) = true ->
    Game.game_complete (Game.run sin inputs g) = true \/
    (Game.game_complete (Game.run sin inputs g) = false /\
     Game.player (Game.run sin inputs g) =
       Player.run inputs (Game.platforms g) (Game.player g) /\
     Game.platforms (Game.run sin inputs g) = Game.platforms g).
Proof.
  induction inputs as [| i inputs IH]; intros g Hx Hn.
  - destruct (Game.game_complete g) eqn:Hc; [left | right]; cbn; auto.
  - inversion Hx as [| ? ? Hi Hrest]; subst.
    destruct (Game.game_complete g) eqn:Hc.
    + left. now rewrite complete_run_stays.
    + cbn [never_falls] in Hn. apply andb_true_iff in Hn. destruct Hn as [Hy Hn].
      apply negb_true_iff in Hy.
      rewrite run_cons.
      change (Player.run (i :: inputs) (Game.platforms g) (Game.player g))
        with (Player.run inputs (Game.platforms g)
                (Player.update i (Game.platforms g) (Game.player g))).
      assert (Hf : Game.fell_off (Game.advance sin i g) = false)
        by (rewrite advance_eq; exact Hy).
      assert (E : Game.player (Game.update sin i g) =
                    Player.update i (Game.platforms g) (Game.player g) /\
                  Game.platforms (Game.update sin i g) = Game.platforms g).
      { destruct (update_cases sin i g)
          as [[F _] | [[_ [F _]] | [[_ [_ [F _]]] | [_ [_ [_ E]]]]]]; try congruence.
        rewrite E. destruct (Game.star_collected _); rewrite advance_eq;
          split; reflexivity. }
      destruct E as [E1 E2].
      specialize (IH (Game.update sin i g) Hrest).
      rewrite E1, E2 in IH. exact (IH Hn).
Qed.

(** In every state of a run the star is the collectible built at
    (55, 12), 6 by 6. *)
Lemma run_star_shape (sin : Q -> Q) (inputs : list Input) :
  exists c,
    Game.star_object (Game.run sin inputs Game.init) = Some c /\
    collectible_shape c = (55, 12, 6, 6, Some true).
Proof.
  unfold Game.star_object. rewrite run_star.
  pose proof (f_equal (fun l => nth_error l 7) (run_collectible_shapes sin inputs)) as H.
  cbv beta in H. rewrite nth_error_map in H.
  destruct (nth_error _ 7) as [c |]; [| discriminate].
  exists c. split; [reflexivity |].
  exact (f_equal (fun o => match o with
                           | Some s => s
                           | None => collectible_shape c
                           end) H).
Qed.

(** A run without X and without a fall that brings the player, on one
    more tick, over the top platform at the height of the star wins the
    game on that tick at the latest. *)
Lemma win_at_the_star (sin : Q -> Q) (inputs : list Input) (i : Input) :
  (forall t, - 1 <= sin t <= 1) ->
  Forall (fun j => pressed_X j = false) inputs ->
  pressed_X i = false ->
  never_falls inputs (Game.platforms Game.init) (Game.player Game.init) = true ->
  let p := Player.update i (Game.platforms Game.init)
             (Player.run inputs (Game.platforms Game.init) (Game.player Game.init)) in
  Player.x p < 61 ->
  55 < Player.x p + Player.width p ->
  Player.y p < 16 ->
  14 < Player.y p + Player.height p ->
  Qgt_bool (Player.y p) (SCREEN_HEIGHT + 20) = false ->
  Game.game_complete (Game.run sin (inputs ++ [i]) Game.init) = true.
Proof.
  intros Hsin Hx Hi Hn p X1 X2 Y1 Y2 Hy.
  rewrite run_snoc.
  destruct (run_star_shape sin inputs) as [c [Hc Hshape_c]].
  destruct (run_player_or_complete sin inputs Game.init Hx Hn)
    as [Hdone | [Hplaying [Hp Hps]]].
  - rewrite complete_freezes_game_step; [exact Hdone | exact Hdone | exact Hi].
  - generalize dependent (Game.run sin inputs Game.init).
    intros g Hc Hplaying Hp Hps.
    assert (Hp' : Player.update i (Game.platforms g) (Game.player g) = p)
      by (unfold p; rewrite Hp, Hps; reflexivity).
    assert (Hover : Player.rect_collision
                      (Player.rect (Player.update i (Game.platforms g) (Game.player g)))
                      (Collectible.get_rect (Collectible.update sin c)) = true).
    { unfold collectible_shape in Hshape_c.
      injection Hshape_c as Hcx Hcy Hcw Hch _.
      unfold Collectible.get_rect, Collectible.update, Player.rect.
      cbn [Collectible.x Collectible.y Collectible.width Collectible.height
           Collectible.bob_offset].
      rewrite Hcx, Hcy, Hcw, Hch, Hp'. apply rect_collision_iff.
      destruct (Hsin (inject_Z (Collectible.tick_counter c + 1) * (1 # 10)))
        as [Hlo Hhi].
      repeat split; lra. }
    assert (Hf : Game.fell_off (Game.advance sin i g) = false).
    { rewrite advance_eq. unfold Game.fell_off. cbn [Game.player].
      rewrite Hp'. exact Hy. }
    assert (Hstar : Game.star_collected (Game.advance sin i g) = true).
    { rewrite advance_eq. unfold Game.star_collected, Game.star_object.
      cbn [Game.collectibles Game.star]. unfold Game.star_object in Hc.
      rewrite nth_error_map, Hc. cbn [option_map].
      rewrite visited_collected, Hover. apply orb_true_r. }
    destruct (update_cases sin i g)
      as [[F _] | [[_ [F _]] | [[_ [_ [F _]]] | [_ [_ [_ E]]]]]];
      [congruence | congruence | congruence |].
    rewrite E, Hstar. reflexivity.
Qed.

(** The player after the thirty-five inputs, as [Player.update] alone
    moves it: over the top platform, at the height of the star. *)
Lemma winning_position :
  Forall (fun j => pressed_X j = false) (approach ++ [R]) /\
  never_falls (approach ++ [R]) (Game.platforms Game.init) (Game.player Game.init)
    = true /\
  let p := Player.update R (Game.platforms Game.init)
             (Player.run (approach ++ [R]) (Game.platforms Game.init)
                (Game.player Game.init)) in
  Player.x p < 61 /\ 55 < Player.x p + Player.width p /\
  Player.y p < 16 /\ 14 < Player.y p + Player.height p /\
  Qgt_bool (Player.y p) (SCREEN_HEIGHT + 20) = false.
Proof.
  split; [repeat constructor |]. vm_compute. repeat split.
Qed.

(** X14.  The level can be won whatever the phase of the animation: when
    sin stays within [-1, 1], the thirty-five inputs of [winning_inputs]
    (none of them X) take the game from its initial state to Complete. *)
Theorem the_level_can_be_won :
  forall sin : Q -> Q,
    (forall t, - 1 <= sin t <= 1) ->
    Game.game_complete (Game.run sin winning_inputs Game.init) = true.
Proof.
  intros sin Hsin.
  destruct winning_position as [Hx [Hn [X1 [X2 [Y1 [Y2 Hy]]]]]].
  exact (win_at_the_star sin (approach ++ [R]) R Hsin Hx eq_refl Hn X1 X2 Y1 Y2 Hy).
Qed.

Lemma the_level_can_be_won_witness :
  Game.game_complete (Game.run flat winning_inputs Game.init) = true.
Proof.
  apply the_level_can_be_won. intro t. vm_compute. split; discriminate.
Defined.

(** ** What is written on the screen *)

Lemma platforms_draw_no_text (ps : list Platform.t) :
  filter is_text (flat_map Platform.draw ps) = [].
Proof. induction ps as [| q ps IH]; [reflexivity | exact IH]. Qed.

Lemma collectibles_draw_no_text (cs : list Collectible.t) :
  filter is_text (flat_map Collectible.draw cs) = [].
Proof.
  induction cs as [| c cs IH]; [reflexivity |].
  cbn [flat_map]. rewrite filter_app, IH, app_nil_r.
  unfold Collectible.draw.
  destruct (negb (Collectible.collected c)); [| reflexivity].
  destruct (Collectible.star_shaped c); reflexivity.
Qed.

(** X15.  The text on the screen: in every frame of a running game the
    score is written, followed by the two lines of the win banner exactly
    when the game is complete, and by nothing else.  In particular the
    "Level Complete!" banner of draw_ui is never shown: all collectibles
    being collected includes the star, and then the game is complete. *)
Theorem screen_text :
  forall (sin : Q -> Q) (inputs : list Input),
    let g := Game.run sin inputs Game.init in
    filter is_text (Game.draw g) =
      text (String.append "Score: "%string (str (Game.score g))) 2 2 ::
      (if Game.game_complete g
       then [ text "You found the star!"%string 10 60;
              text "Press X to restart"%string 10 70 ]
       else []) /\
    ~ In (text "Level Complete!"%string 25 60) (Game.draw g).
Proof.
  intros sin inputs g.
  assert (H : filter is_text (Game.draw g) =
              text (String.append "Score: "%string (str (Game.score g))) 2 2 ::
              (if Game.game_complete g
               then [ text "You found the star!"%string 10 60;
                      text "Press X to restart"%string 10 70 ]
               else [])).
  { pose proof (all_collected_complete sin inputs) as Hall. fold g in Hall.
    unfold Game.draw, Game.draw_ui.
    destruct (Game.game_complete g) eqn:Hc; [reflexivity |].
    destruct (Game.all_collected g); [specialize (Hall eq_refl); discriminate |].
    rewrite !filter_app, platforms_draw_no_text, collectibles_draw_no_text.
    reflexivity. }
  split; [exact H |].
  intro Hin.
  assert (Hin' : In (text "Level Complete!"%string 25 60) (filter is_text (Game.draw g)))
    by (apply filter_In; split; [exact Hin | reflexivity]).
  rewrite H in Hin'.
  destruct (Game.game_complete g); cbn [In] in Hin';
    repeat (destruct Hin' as [Hin' | Hin']; [discriminate Hin' |]);
    exact Hin'.
Qed.

(** ** The device loop *)

(** X16.  The automatic quit: the device loop runs [Game.update] for
    every call up to and including the first one whose tick is above 1000,
    and for no call after it; if no tick is above 1000 it runs it for every
    call. *)
Theorem host_quits_after_tick_1000 :
  forall (sin : Q -> Q) (g : Game.t),
    (forall calls : list (Z * Input),
        Forall (fun c => (fst c <= 1000)%Z) calls ->
        host_run sin calls g = Game.run sin (map snd calls) g) /\
    (forall (before after : list (Z * Input)) (tick : Z) (i : Input),
        Forall (fun c => (fst c <= 1000)%Z) before ->
        (1000 < tick)%Z ->
        host_run sin (before ++ (tick, i) :: after) g =
        Game.update sin i (Game.run sin (map snd before) g)).
Proof.
  intros sin g. split.
  - intros calls. revert g.
    induction calls as [| [t i] calls IH]; intros g H; [reflexivity |].
    inversion H as [| ? ? Ht Hrest]; subst. cbn [fst] in Ht.
    cbn [host_run update map snd]. rewrite run_cons.
    replace (1000 <? t)%Z with false by (symmetry; apply Z.ltb_ge; exact Ht).
    now apply IH.
  - intros before. revert g.
    induction before as [| [t j] before IH]; intros g after tick i H Ht.
    + cbn [app host_run update map]. 
      replace (1000 <? tick)%Z with true by (symmetry; apply Z.ltb_lt; exact Ht).
      reflexivity.
    + inversion H as [| ? ? Htj Hrest]; subst. cbn [fst] in Htj.
      cbn [app host_run update map snd]. rewrite run_cons.
      replace (1000 <? t)%Z with false by (symmetry; apply Z.ltb_ge; exact Htj).
      now apply IH.
Qed.

Lemma host_quits_after_tick_1000_witness :
  host_run flat ([(999, R); (1000, R)] ++ (1001, R) :: [(1002, press_X)])%Z Game.init =
  Game.update flat R (Game.run flat (map snd [(999, R); (1000, R)]%Z) Game.init).
Proof.
  apply (proj2 (host_quits_after_tick_1000 flat Game.init)).
  - repeat constructor; cbn; lia.
  - lia.
Defined.

Lemma score_is_at_most_80_witness :
  Game.score (Game.run flat perfect_inputs Game.init) = 80%Z /\
  Game.all_collected (Game.run flat perfect_inputs Game.init) = true /\
  Game.game_complete (Game.run flat perfect_inputs Game.init) = true.
Proof.
  assert (H : Game.score (Game.run flat perfect_inputs Game.init) = 80%Z)
    by (vm_compute; reflexivity).
  destruct (score_is_at_most_80 flat perfect_inputs) as [_ [H1 H2]].
  split; [exact H |].
  split; [exact (proj1 H1 H) | exact (H2 H)].
Defined.

(** ** No tunnelling at moderate speed *)

(** X17.  On the level of the game a falling player cannot pass through
    a platform as long as it falls by less than its own height per tick: if
    its bottom is at or above the platform's top before the tick, its
    velocity for this tick is below 8, and after the move its bottom is
    below the platform's top while it is horizontally over the platform,
    then it ends the tick standing on the platform. *)
Theorem no_tunnelling_below_speed_8 :
  forall (i : Input) (p : Player.t) (platform : Platform.t),
    Player.width p = 8 ->
    Player.height p = 8 ->
    In platform Game.level_platforms ->
    Player.y p + 8 <= Platform.y platform ->
    Player.vel_y (Player.before_collisions i p) < 8 ->
    Platform.y platform < Player.y (Player.before_collisions i p) + 8 ->
    Player.x p + input_vel_x i < Platform.x platform + Platform.width platform ->
    Platform.x platform < Player.x p + input_vel_x i + 8 ->
    Player.vel_y (Player.update i Game.level_platforms p) = 0 /\
    Player.on_ground (Player.update i Game.level_platforms p) = true /\
    Player.y (Player.update i Game.level_platforms p) = Platform.y platform - 8.
Proof.
  intros i p platform Hw Hh Hin Habove Hslow Hcross Hx1 Hx2.
  pose proof (before_collisions_y i p) as By.
  pose proof (before_collisions_x i p) as Bx.
  pose proof (before_collisions_shape i p) as Bs.
  assert (Bw : Player.width (Player.before_collisions i p) = 8)
    by (rewrite <- Hw; exact (f_equal (fun s => fst (fst (fst s))) Bs)).
  assert (Bh : Player.height (Player.before_collisions i p) = 8)
    by (rewrite <- Hh; exact (f_equal (fun s => snd (fst (fst s))) Bs)).
  assert (Hheight : 8 <= Platform.height platform).
  { unfold Game.level_platforms in Hin. simpl In in Hin.
    repeat (destruct Hin as [<- | Hin]; [cbn [Platform.height]; lra |]).
    contradiction. }
  assert (C1 : Player.vel_y (Player.before_collisions i p) > 0)
    by (rewrite By in Hcross; lra).
  assert (C3 : Player.y (Player.before_collisions i p) < Platform.y platform)
    by (rewrite By; lra).
  assert (C2 : Player.rect_collision (Player.rect (Player.before_collisions i p))
                 (Platform.get_rect platform) = true).
  { unfold Player.rect, Platform.get_rect. apply rect_collision_iff.
    rewrite Bx, Bw, Bh. repeat split; lra. }
  destruct (player_update_landing i p platform Hw Hh Hin C1 C2 C3) as [A [B C]].
  rewrite Hh in C. repeat split; assumption.
Qed.

Lemma no_tunnelling_below_speed_8_witness :
  Player.y (Game.player (Game.run flat (repeat N 8) Game.init)) + 8
    <= Platform.y (Platform.mk 0 110 40 10 GREEN) /\
  Player.on_ground (Game.player (Game.run flat (repeat N 8) Game.init)) = false /\
  Player.on_ground
    (Player.update N Game.level_platforms
       (Game.player (Game.run flat (repeat N 8) Game.init))) = true.
Proof.
  split; [vm_compute; discriminate |].
  split; [vm_compute; reflexivity |].
  apply (no_tunnelling_below_speed_8 N
           (Game.player (Game.run flat (repeat N 8) Game.init))
           (Platform.mk 0 110 40 10 GREEN));
    try (vm_compute; reflexivity); try (vm_compute; discriminate).
  vm_compute. left. reflexivity.
Defined.

(** ** The hit box of a collectible *)

(** X18.  When sin stays within [-1, 1], the rectangle with which a
    collectible is tested against the player is, at every tick boundary,
    the collectible's own 6 by 6 box moved vertically by at most 2. *)
Theorem hit_box_bobs_within_2 :
  forall (sin : Q -> Q) (inputs : list Input) (c : Collectible.t),
    (forall t, - 1 <= sin t <= 1) ->
    In c (Game.collectibles (Game.run sin inputs Game.init)) ->
    exists dy,
      - 2 <= dy <= 2 /\
      Collectible.get_rect c =
        (Collectible.x c, Collectible.y c + dy, 6, 6).
Proof.
  intros sin inputs c Hsin Hc.
  destruct (run_clock sin inputs c Hc) as [_ Hb].
  assert (Hsize : Collectible.width c = 6 /\ Collectible.height c = 6).
  { pose proof (run_collectible_shapes sin inputs) as Hs.
    assert (Hin : In (collectible_shape c)
                     (map collectible_shape (Game.collectibles Game.init)))
      by (rewrite <- Hs; now apply in_map).
    cbn in Hin.
    repeat (destruct Hin as [Hin | Hin];
            [unfold collectible_shape in Hin; injection Hin as _ _ Hw Hh _;
             split; congruence |]).
    contradiction. }
  destruct Hsize as [Hw Hh].
  exists (Collectible.bob_offset c). split.
  - rewrite Hb. unfold bob_after.
    destruct (played_ticks sin inputs Game.init =? 0)%Z; [lra |].
    destruct (Hsin (inject_Z (played_ticks sin inputs Game.init) * (1 # 10))).
    lra.
  - unfold Collectible.get_rect. now rewrite Hw, Hh.
Qed.

Lemma hit_box_bobs_within_2_witness :
  Forall (fun c => exists dy, - 2 <= dy <= 2 /\
                   Collectible.get_rect c = (Collectible.x c, Collectible.y c + dy, 6, 6))
         (Game.collectibles (Game.run flat approach Game.init)).
Proof.
  apply Forall_forall. intros c Hc.
  apply (hit_box_bobs_within_2 flat approach c); [| exact Hc].
  intro t. vm_compute. split; discriminate.
Defined.

(** ** What is left on the screen *)

Lemma yellow_pens_collectibles (cs : list Collectible.t) :
  Z.of_nat (length (filter is_yellow_pen (flat_map Collectible.draw cs))) =
  (Z.of_nat (length cs) - Game.collected_count cs)%Z.
Proof.
  induction cs as [| c cs IH]; [reflexivity |].
  cbn [flat_map]. rewrite filter_app, length_app, Nat2Z.inj_add, IH.
  rewrite collected_count_cons. cbn [length]. rewrite Nat2Z.inj_succ.
  unfold Collectible.draw.
  destruct (Collectible.collected c); cbn [negb];
    [| destruct (Collectible.star_shaped c)];
    cbv [filter is_yellow_pen YELLOW WHITE length]; lia.
Qed.

(** X19.  A frame of a running game that is not complete shows exactly
    the collectibles that are left: the yellow pen is taken once per
    uncollected collectible (platforms and player use other colours), so ten
    times the number of yellow items on screen is 80 minus the score. *)
Theorem items_on_screen :
  forall (sin : Q -> Q) (inputs : list Input),
    Game.game_complete (Game.run sin inputs Game.init) = false ->
    (10 * Z.of_nat (length (filter is_yellow_pen
                              (Game.draw (Game.run sin inputs Game.init)))))%Z =
    (80 - Game.score (Game.run sin inputs Game.init))%Z.
Proof.
  intros sin inputs Hc.
  pose proof (score_invariant sin inputs) as Hs.
  pose proof (run_collectibles_length sin inputs) as Hl.
  pose proof (run_platforms sin inputs) as Hp.
  pose proof (all_collected_complete sin inputs) as Hall.
  generalize dependent (Game.run sin inputs Game.init).
  intros g Hc Hs Hl Hp Hall.
  unfold Game.draw, Game.draw_ui. rewrite Hc, Hp.
  destruct (Game.all_collected g); [specialize (Hall eq_refl); congruence |].
  rewrite !filter_app, !length_app, !Nat2Z.inj_add, yellow_pens_collectibles, Hl, Hs.
  cbv [filter is_yellow_pen length app flat_map Game.level_platforms Platform.draw
       Platform.color Player.draw BLUE GREEN WHITE GRAY RED].
  lia.
Qed.

Lemma items_on_screen_witness :
  Game.score (Game.run flat approach Game.init) = 10%Z /\
  (10 * Z.of_nat (length (filter is_yellow_pen
                            (Game.draw (Game.run flat approach Game.init)))))%Z =
  (80 - Game.score (Game.run flat approach Game.init))%Z.
Proof.
  split; [vm_compute; reflexivity |].
  apply items_on_screen. vm_compute. reflexivity.
Defined.

(** ** Landing, for every platform list *)

Lemma find_first {A : Type} (f : A -> bool) (l1 l2 : list A) (a : A) :
  Forall (fun b => f b = false) l1 ->
  f a = true ->
  find f (l1 ++ a :: l2) = Some a.
Proof.
  intros H Ha. induction H as [| b l1 Hb _ IH]; simpl.
  - now rewrite Ha.
  - now rewrite Hb.
Qed.

(** C3, as the code has it.  A player that is falling when the collisions
    are resolved (vel_y > 0), whose moved rectangle overlaps a platform of
    the list and whose top is above that platform's top, ends
    [Player.update] with vel_y = 0, on_ground set and y = q.y - height,
    where q is the first platform of the list it can land on in this way.
    q is the named platform when no platform before it in the list
    qualifies, and q has the named platform's top when all qualifying
    platforms have their tops at one height.  This is always so for an
    8 by 8 player on the level of the game: there, for every platform, the
    player ends [Player.update], and the tick of the game that runs it, at
    y = platform.y - height. *)
Theorem landing_from_above :
  (forall (i : Input) (ps : list Platform.t) (p : Player.t) (platform : Platform.t),
      In platform ps ->
      Player.vel_y (Player.before_collisions i p) > 0 ->
      Player.rect_collision (Player.rect (Player.before_collisions i p))
                            (Platform.get_rect platform) = true ->
      Player.y (Player.before_collisions i p) < Platform.y platform ->
      exists q,
        find (lands_on (Player.before_collisions i p)) ps = Some q /\
        Player.vel_y (Player.update i ps p) = 0 /\
        Player.on_ground (Player.update i ps p) = true /\
        Player.y (Player.update i ps p) = Platform.y q - Player.height p /\
        (forall l1 l2,
            ps = l1 ++ platform :: l2 ->
            Forall (fun q' => lands_on (Player.before_collisions i p) q' = false) l1 ->
            q = platform) /\
        ((forall q',
             In q' ps ->
             lands_on (Player.before_collisions i p) q' = true ->
             Platform.y q' = Platform.y platform) ->
         Platform.y q = Platform.y platform)) /\
  (forall (i : Input) (p : Player.t) (platform : Platform.t),
      Player.width p = 8 ->
      Player.height p = 8 ->
      In platform Game.level_platforms ->
      Player.vel_y (Player.before_collisions i p) > 0 ->
      Player.rect_collision (Player.rect (Player.before_collisions i p))
                            (Platform.get_rect platform) = true ->
      Player.y (Player.before_collisions i p) < Platform.y platform ->
      Player.vel_y (Player.update i Game.level_platforms p) = 0 /\
      Player.on_ground (Player.update i Game.level_platforms p) = true /\
      Player.y (Player.update i Game.level_platforms p) =
        Platform.y platform - Player.height p) /\
  (forall (sin : Q -> Q) (inputs : list Input) (i : Input) (platform : Platform.t),
      pressed_X i = false ->
      Game.game_complete (Game.run sin inputs Game.init) = false ->
      In platform (Game.platforms (Game.run sin inputs Game.init)) ->
      Player.vel_y (Player.before_collisions i
                      (Game.player (Game.run sin inputs Game.init))) > 0 ->
      Player.rect_collision
        (Player.rect (Player.before_collisions i
                        (Game.player (Game.run sin inputs Game.init))))
        (Platform.get_rect platform) = true ->
      Player.y (Player.before_collisions i
                  (Game.player (Game.run sin inputs Game.init)))
        < Platform.y platform ->
      Player.vel_y (Game.player (Game.update sin i (Game.run sin inputs Game.init))) = 0 /\
      Player.on_ground (Game.player (Game.update sin i (Game.run sin inputs Game.init)))
        = true /\
      Player.y (Game.player (Game.update sin i (Game.run sin inputs Game.init))) =
        Platform.y platform -
        Player.height (Game.player (Game.run sin inputs Game.init))).
Proof.
  split; [| split; [exact player_update_landing |]].
  - intros i ps p platform Hin Hv Hr Hy.
    assert (Hh : Player.height (Player.before_collisions i p) = Player.height p)
      by exact (f_equal (fun s => snd (fst (fst s))) (before_collisions_shape i p)).
    assert (Hl : lands_on (Player.before_collisions i p) platform = true)
      by (unfold lands_on; rewrite Hr; now apply Qlt_bool_iff).
    destruct (find (lands_on (Player.before_collisions i p)) ps) as [q |] eqn:Hf;
      [| pose proof (find_none _ _ Hf platform Hin); congruence].
    exists q. split; [reflexivity |].
    assert (E : Player.handle_collisions ps (Player.before_collisions i p) =
                landed (Platform.y q) (Player.before_collisions i p)).
    { rewrite handle_collisions_search. unfold first_response.
      apply Qgt_bool_iff in Hv. now rewrite Hv, Hf. }
    unfold Player.update. rewrite keep_on_screen_on_ground.
    destruct (keep_on_screen_vertical
                (Player.handle_collisions ps (Player.before_collisions i p)))
      as [Ky Kv].
    rewrite Ky, Kv, E.
    cbn [landed Player.vel_y Player.y Player.on_ground
         Player.with_on_ground Player.with_vel_y Player.with_y].
    rewrite Hh. repeat split.
    + intros l1 l2 Hps Hl1. rewrite Hps, (find_first _ l1 l2 platform Hl1 Hl) in Hf.
      congruence.
    + intro Hsame. apply find_some in Hf. destruct Hf as [Hq Hlq].
      now apply Hsame.
  - intros sin inputs i platform Hx Hc Hin Hv Hr Hy.
    pose proof (run_platforms sin inputs) as Hp.
    pose proof (run_player_shape sin inputs) as Hs.
    set (g := Game.run sin inputs Game.init) in *.
    assert (Hw : Player.width (Game.player g) = 8)
      by exact (f_equal (fun s => fst (fst (fst s))) Hs).
    assert (Hh : Player.height (Game.player g) = 8)
      by exact (f_equal (fun s => snd (fst (fst s))) Hs).
    rewrite Hp in Hin.
    pose proof (player_update_landing i (Game.player g) platform Hw Hh Hin Hv Hr Hy) as Hl.
    assert (Ha : Game.player (Game.advance sin i g) =
                 Player.update i Game.level_platforms (Game.player g))
      by (rewrite advance_eq, Hp; reflexivity).
    destruct (update_cases sin i g) as [[F _] | [[_ [F _]] | [[_ [_ [Hf _]]] | [_ [_ [_ E]]]]]].
    + congruence.
    + congruence.
    + exfalso. unfold Game.fell_off in Hf. apply Qgt_bool_iff in Hf.
      rewrite Ha in Hf. destruct Hl as [_ [_ Hl]]. rewrite Hl, Hh in Hf.
      pose proof (level_platform_top platform Hin). unfold SCREEN_HEIGHT in Hf. lra.
    + assert (E' : Game.player (Game.update sin i g) =
                   Player.update i Game.level_platforms (Game.player g)).
      { rewrite E. destruct (Game.star_collected _); exact Ha. }
      rewrite E'. exact Hl.
Qed.

Lemma landing_from_above_witness :
  (Player.vel_y (Player.before_collisions N
                   (Game.player (Game.run flat (repeat N 8) Game.init))) > 0 /\
   Player.y (Player.before_collisions N
               (Game.player (Game.run flat (repeat N 8) Game.init)))
     < Platform.y (Platform.mk 0 110 40 10 GREEN) /\
   Player.on_ground (Game.player (Game.run flat (repeat N 8) Game.init)) = false /\
   Player.on_ground
     (Game.player (Game.update flat N (Game.run flat (repeat N 8) Game.init))) = true /\
   Player.y (Game.player (Game.update flat N (Game.run flat (repeat N 8) Game.init))) =
     Platform.y (Platform.mk 0 110 40 10 GREEN) -
     Player.height (Game.player (Game.run flat (repeat N 8) Game.init))) /\
  (In shelf_high [shelf_low; shelf_high] /\
   Player.y (Player.update N [shelf_low; shelf_high] faller) =
     Platform.y shelf_low - Player.height faller /\
   Player.on_ground (Player.update N [shelf_low; shelf_high] faller) = true).
Proof.
  split.
  - assert (Hc : Game.game_complete (Game.run flat (repeat N 8) Game.init) = false)
      by (vm_compute; reflexivity).
    assert (Hin : In (Platform.mk 0 110 40 10 GREEN)
                     (Game.platforms (Game.run flat (repeat N 8) Game.init)))
      by (vm_compute; left; reflexivity).
    assert (Hv : Player.vel_y (Player.before_collisions N
                    (Game.player (Game.run flat (repeat N 8) Game.init))) > 0)
      by (vm_compute; reflexivity).
    assert (Hr : Player.rect_collision
                   (Player.rect (Player.before_collisions N
                      (Game.player (Game.run flat (repeat N 8) Game.init))))
                   (Platform.get_rect (Platform.mk 0 110 40 10 GREEN)) = true)
      by (vm_compute; reflexivity).
    assert (Hy : Player.y (Player.before_collisions N
                    (Game.player (Game.run flat (repeat N 8) Game.init)))
                 < Platform.y (Platform.mk 0 110 40 10 GREEN))
      by (vm_compute; reflexivity).
    split; [exact Hv |].
    split; [exact Hy |].
    split; [vm_compute; reflexivity |].
    exact (proj2 (proj2 (proj2 landing_from_above) flat (repeat N 8) N
                    (Platform.mk 0 110 40 10 GREEN) eq_refl Hc Hin Hv Hr Hy)).
  - assert (Hin : In shelf_high [shelf_low; shelf_high])
      by (right; left; reflexivity).
    assert (Hv : Player.vel_y (Player.before_collisions N faller) > 0)
      by (vm_compute; reflexivity).
    assert (Hr : Player.rect_collision (Player.rect (Player.before_collisions N faller))
                   (Platform.get_rect shelf_high) = true)
      by (vm_compute; reflexivity).
    assert (Hy : Player.y (Player.before_collisions N faller) < Platform.y shelf_high)
      by (vm_compute; reflexivity).
    destruct (proj1 landing_from_above N [shelf_low; shelf_high] faller shelf_high
                Hin Hv Hr Hy) as [q [Hf [_ [Hg [Hq _]]]]].
    assert (Eq : q = shelf_low)
      by (vm_compute in Hf; injection Hf as <-; reflexivity).
    rewrite Eq in Hq.
    split; [exact Hin |]. split; [exact Hq | exact Hg].
Defined.

(** The statement of C3 fails on a list in which an earlier platform
    qualifies too: the player overlaps both shelves with its top above
    both, is put on the first one (y = 10 - 8) and the second one, whose
    top is at 8, is then ignored. *)
Lemma landing_on_a_later_platform_fails :
  In shelf_high [shelf_low; shelf_high] /\
  Player.vel_y (Player.before_collisions N faller) > 0 /\
  Player.rect_collision (Player.rect (Player.before_collisions N faller))
                        (Platform.get_rect shelf_high) = true /\
  Player.y (Player.before_collisions N faller) < Platform.y shelf_high /\
  Player.y (Player.update N [shelf_low; shelf_high] faller) == 2 /\
  ~ Player.y (Player.update N [shelf_low; shelf_high] faller)
    == Platform.y shelf_high - Player.height faller.
Proof.
  split; [right; left; reflexivity |].
  repeat split; try (vm_compute; reflexivity); vm_compute; discriminate.
Qed.

(** ** Falling off the bottom, after the player's update *)

(** On the level, a player that is not falling ends the collisions at
    or above the line it was moved to, or under a platform. *)
Lemma handle_collisions_rising_bound (p : Player.t) (bound : Q) :
  Player.vel_y p < 0 ->
  Player.y p <= bound ->
  120 <= bound ->
  Player.y (Player.handle_collisions Game.level_platforms p) <= bound.
Proof.
  intros Hv Hy Hb. rewrite handle_collisions_search. unfold first_response.
  assert (H1 : Qgt_bool (Player.vel_y p) 0 = false) by (apply Qgt_bool_ngt; lra).
  assert (H2 : Qlt_bool (Player.vel_y p) 0 = true) by (now apply Qlt_bool_iff).
  rewrite H1, H2.
  destruct (find (bumps_under p) Game.level_platforms) as [q |] eqn:E.
  - apply find_some in E. destruct E as [Hin _].
    pose proof (level_platform_bottom q Hin).
    cbn [bumped Player.y Player.with_vel_y Player.with_y]. lra.
  - exact Hy.
Qed.

(** C6, as the code has it.  In a running game, on a tick without X, the
    test player.y > SCREEN_HEIGHT + 20 is made after the player and the
    collectibles have been updated.  When it holds, the tick ends with the
    full reset: player at its start position with zero velocity, score 0, no
    collectible collected, game not complete.  When it does not hold,
    restart_level is not called.  With player.y set to SCREEN_HEIGHT + 21 on
    the level of the game it holds exactly when the velocity with which the
    position is updated on that tick is above -1: at -1 or below the test
    fails and the tick resets nothing. *)
Theorem fall_off_resets_after_physics :
  forall (sin : Q -> Q) (i : Input) (g : Game.t),
    pressed_X i = false ->
    Game.game_complete g = false ->
    (Game.fell_off (Game.advance sin i g) = true ->
     Game.update sin i g = Game.restart_level (Game.advance sin i g) /\
     Player.x (Game.player (Game.update sin i g)) = Player.start_x (Game.player g) /\
     Player.y (Game.player (Game.update sin i g)) = Player.start_y (Game.player g) /\
     Player.vel_x (Game.player (Game.update sin i g)) = 0 /\
     Player.vel_y (Game.player (Game.update sin i g)) = 0 /\
     Game.score (Game.update sin i g) = 0%Z /\
     Forall (fun c => Collectible.collected c = false)
            (Game.collectibles (Game.update sin i g)) /\
     Game.game_complete (Game.update sin i g) = false) /\
    (Game.platforms g = Game.level_platforms ->
     Player.y (Game.player g) = SCREEN_HEIGHT + 21 ->
     Player.vel_y (Player.before_collisions i (Game.player g)) > - 1 ->
     Game.fell_off (Game.advance sin i g) = true) /\
    (Game.fell_off (Game.advance sin i g) = false ->
     Game.update sin i g =
       if Game.star_collected (Game.advance sin i g)
       then Game.with_game_complete true (Game.advance sin i g)
       else Game.advance sin i g) /\
    (Game.platforms g = Game.level_platforms ->
     Player.y (Game.player g) = SCREEN_HEIGHT + 21 ->
     Player.vel_y (Player.before_collisions i (Game.player g)) <= - 1 ->
     Game.fell_off (Game.advance sin i g) = false /\
     Game.player (Game.update sin i g) =
       Player.update i (Game.platforms g) (Game.player g) /\
     Game.score (Game.update sin i g) = Game.score (Game.advance sin i g) /\
     Game.collectibles (Game.update sin i g) =
       Game.collectibles (Game.advance sin i g) /\
     Game.update sin i g =
       if Game.star_collected (Game.advance sin i g)
       then Game.with_game_complete true (Game.advance sin i g)
       else Game.advance sin i g).
Proof.
  intros sin i g Hx Hc.
  assert (Hno : Game.fell_off (Game.advance sin i g) = false ->
                Game.update sin i g =
                  if Game.star_collected (Game.advance sin i g)
                  then Game.with_game_complete true (Game.advance sin i g)
                  else Game.advance sin i g).
  { intro Hf.
    destruct (update_cases sin i g) as [[F _] | [[_ [F _]] | [[_ [_ [F _]]] | [_ [_ [_ E]]]]]];
      congruence. }
  split; [| split; [| split; [exact Hno |]]].
  - intro Hf.
    assert (E : Game.update sin i g = Game.restart_level (Game.advance sin i g)).
    { destruct (update_cases sin i g) as [[F _] | [[_ [F _]] | [[_ [_ [_ E]]] | [_ [_ [F _]]]]]];
        congruence. }
    pose proof (player_update_shape i (Game.platforms g) (Game.player g)) as Hs.
    rewrite E. split; [reflexivity |].
    rewrite advance_eq. cbn [Game.restart_level Game.player Game.score
                             Game.game_complete Game.collectibles Player.reset
                             Player.x Player.y Player.vel_x Player.vel_y].
    split; [exact (f_equal (fun s => snd (fst s)) Hs) |].
    split; [exact (f_equal (fun s => snd s) Hs) |].
    repeat split.
    apply (restart_level_collected
             (Game.mk (Game.player g) (Game.platforms g)
                (map (visited sin (Player.update i (Game.platforms g) (Game.player g)))
                   (Game.collectibles g))
                (Game.star g) 0%Z false)).
  - intros Hp Hy Hv.
    rewrite advance_eq. unfold Game.fell_off. cbn [Game.player].
    apply Qgt_bool_iff. rewrite Hp. unfold Player.update.
    destruct (keep_on_screen_vertical
                (Player.handle_collisions Game.level_platforms
                   (Player.before_collisions i (Game.player g)))) as [Ky _].
    rewrite Ky.
    pose proof (before_collisions_y i (Game.player g)) as Hb. rewrite Hy in Hb.
    unfold SCREEN_HEIGHT in *.
    rewrite handle_collisions_below_level by (rewrite Hb; lra).
    cbn [Player.y Player.with_on_ground]. rewrite Hb. lra.
  - intros Hp Hy Hv.
    assert (Hf : Game.fell_off (Game.advance sin i g) = false).
    { rewrite advance_eq. unfold Game.fell_off. cbn [Game.player].
      apply Qgt_bool_ngt. rewrite Hp. unfold Player.update.
      destruct (keep_on_screen_vertical
                  (Player.handle_collisions Game.level_platforms
                     (Player.before_collisions i (Game.player g)))) as [Ky _].
      rewrite Ky.
      pose proof (before_collisions_y i (Game.player g)) as Hb. rewrite Hy in Hb.
      unfold SCREEN_HEIGHT in *.
      apply handle_collisions_rising_bound; [lra | rewrite Hb; lra | lra]. }
    split; [exact Hf |].
    rewrite (Hno Hf).
    destruct (Game.star_collected (Game.advance sin i g));
      rewrite advance_eq; repeat split.
Qed.

Lemma fall_off_resets_after_physics_witness :
  (Player.y (Game.player (dropped before_win)) = SCREEN_HEIGHT + 21 /\
   Game.score (dropped before_win) = 10%Z /\
   Game.fell_off (Game.advance flat N (dropped before_win)) = true /\
   Game.score (Game.update flat N (dropped before_win)) = 0%Z /\
   Game.update flat R rising =
     if Game.star_collected (Game.advance flat R rising)
     then Game.with_game_complete true (Game.advance flat R rising)
     else Game.advance flat R rising) /\
  (Player.y (Game.player (dropped rising)) = SCREEN_HEIGHT + 21 /\
   Player.vel_y (Player.before_collisions N (Game.player (dropped rising))) <= - 1 /\
   Game.fell_off (Game.advance flat N (dropped rising)) = false /\
   Game.player (Game.update flat N (dropped rising)) =
     Player.update N (Game.platforms (dropped rising)) (Game.player (dropped rising))).
Proof.
  split.
  - assert (Hc : Game.game_complete (dropped before_win) = false)
      by (vm_compute; reflexivity).
    assert (Hp : Game.platforms (dropped before_win) = Game.level_platforms)
      by (vm_compute; reflexivity).
    assert (Hv : Player.vel_y (Player.before_collisions N
                                 (Game.player (dropped before_win))) > - 1)
      by (vm_compute; reflexivity).
    pose proof (fall_off_resets_after_physics flat N (dropped before_win) eq_refl Hc)
      as [H1 [H2 _]].
    pose proof (H2 Hp eq_refl Hv) as Hf.
    split; [reflexivity |].
    split; [vm_compute; reflexivity |].
    split; [exact Hf |].
    split; [exact (proj1 (proj2 (proj2 (proj2 (proj2 (proj2 (H1 Hf))))))) |].
    assert (Hc' : Game.game_complete rising = false) by (vm_compute; reflexivity).
    assert (Hf' : Game.fell_off (Game.advance flat R rising) = false)
      by (vm_compute; reflexivity).
    exact (proj1 (proj2 (proj2 (fall_off_resets_after_physics flat R rising eq_refl Hc')))
             Hf').
  - assert (Hc : Game.game_complete (dropped rising) = false)
      by (vm_compute; reflexivity).
    assert (Hp : Game.platforms (dropped rising) = Game.level_platforms)
      by (vm_compute; reflexivity).
    assert (Hv : Player.vel_y (Player.before_collisions N
                                 (Game.player (dropped rising))) <= - 1)
      by (vm_compute; discriminate).
    pose proof (fall_off_resets_after_physics flat N (dropped rising) eq_refl Hc)
      as [_ [_ [_ H4]]].
    destruct (H4 Hp eq_refl Hv) as [Hf [Hpl _]].
    split; [reflexivity |].
    split; [exact Hv |].
    split; [exact Hf | exact Hpl].
Defined.
